(** * plexi-rpl: the observable RPL DoDAG resource

    A shallow embedding of [apps/plexi/plexi-rpl.c]: the GET handler that
    serialises the preferred parent and the direct children of a node into
    bounded chunks, the table of recently heard neighbours
    ([actual_routes]) with its refresh and its periodic sweep, and the
    delayed notification of subscribers.

    Layout: machine integers, addresses and the module's globals; the
    chunk writer; the GET handler; the neighbour table; the notifier and
    the host that dispatches its timer; concrete scenarios; then the
    lemmas and theorems. *)

From Stdlib Require Import ZArith List String Ascii Bool Lia.
Import ListNotations.

Local Open Scope Z_scope.

(* ================================================================== *)
(** ** Machine integers *)

(** C integers are mathematical integers with their conversion written
    out.  [int], [unsigned int], [long], [unsigned long], [size_t] and
    [int32_t] are 32 bits wide, as on the 32-bit targets of the stack. *)

Definition WORD_BITS : Z := 32.

Definition to_unsigned (bits x : Z) : Z := x mod 2 ^ bits.

Definition to_signed (bits x : Z) : Z :=
  (x + 2 ^ (bits - 1)) mod 2 ^ bits - 2 ^ (bits - 1).

Definition to_uint (x : Z) : Z := to_unsigned WORD_BITS x.
Definition to_size_t (x : Z) : Z := to_unsigned WORD_BITS x.
Definition to_ulong (x : Z) : Z := to_unsigned WORD_BITS x.
Definition to_int32 (x : Z) : Z := to_signed WORD_BITS x.
Definition to_long (x : Z) : Z := to_signed WORD_BITS x.

(** [uint16_t preferred_size] *)
Definition UINT16_MAX : Z := 65535.
Definition INT32_MAX : Z := 2147483647.

(* ================================================================== *)
(** ** Addresses *)

(** [uip_ipaddr_t]: sixteen octets, also readable as eight 16-bit words
    ([u16]); [u16[0]] is the first two octets. *)
Definition uip_ipaddr_t : Type := list Z.

Definition uip_ipaddr_eq_dec (a b : uip_ipaddr_t) : {a = b} + {a <> b} :=
  list_eq_dec Z.eq_dec a b.

(** [uip_ipaddr_cmp(a, b)]: non-zero when the two addresses are equal. *)
Definition uip_ipaddr_cmp (a b : uip_ipaddr_t) : bool :=
  if uip_ipaddr_eq_dec a b then true else false.

(** [p.u16[0] = q.u16[0]] *)
Definition set_u16_0 (p q : uip_ipaddr_t) : uip_ipaddr_t :=
  firstn 2 q ++ skipn 2 p.

(** The all-zero address of a global that was never written. *)
Definition ipaddr_zero : uip_ipaddr_t := repeat 0 16.

(* ================================================================== *)
(** ** Constants and collaborators that other headers provide *)

(** [plexi-interface.h] names the two labels; the textual form of an
    address belongs to the address formatter behind
    [plexi_reply_ip_if_possible]; [CLOCK_SECOND] is the platform's number
    of clock ticks per second. *)
Class plexi_interface : Type := {
  DAG_PARENT_LABEL : string;
  DAG_CHILD_LABEL : string;
  ipaddr_text : uip_ipaddr_t -> string;
  CLOCK_SECOND : Z
}.

(** [#define PLEXI_RPL_UPDATE_INTERVAL 30] *)
Definition PLEXI_RPL_UPDATE_INTERVAL : Z := 30.

(** [REST.type.APPLICATION_JSON], the CoAP content format 50. *)
Definition APPLICATION_JSON : Z := 50.

(** Status codes the handler sets. *)
Inductive coap_status_t : Type :=
| CONTENT_2_05
| BAD_OPTION_4_02
| NOT_ACCEPTABLE_4_06.

(** The reason codes of the routing-change signal
    ([UIP_DS6_NOTIFICATION_*]). *)
Inductive uip_ds6_notification : Type :=
| UIP_DS6_NOTIFICATION_DEFRT_ADD
| UIP_DS6_NOTIFICATION_DEFRT_RM
| UIP_DS6_NOTIFICATION_ROUTE_ADD
| UIP_DS6_NOTIFICATION_ROUTE_RM.

(* ================================================================== *)
(** ** The module's globals *)

(** [struct plexi_actual_route_struct] *)
Record plexi_actual_route : Type := mk_actual_route {
  route : uip_ipaddr_t;
  last_seen : Z                         (* long; -1 marks a free slot *)
}.

(** The single-shot callback timer [rpl_changed_timer].

    Modelled from the spec: the host's [ctimer] is not part of this
    file.  It is a single-shot timer with the states [IDLE] and
    [ARMED fire_at]; setting it (re)arms it to now plus the interval and
    overwrites any earlier arm; when it fires it returns to [IDLE] and
    runs its callback once. *)
Inductive ctimer : Type :=
| IDLE
| ARMED (fire_at : Z).

Record plexi_state : Type := mk_state {
  new_notification : Z;                         (* uint8_t *)
  actual_routes : list plexi_actual_route;      (* ACTUAL_ROUTES_NUM slots *)
  rpl_changed_timer : ctimer
}.

Definition set_new_notification (v : Z) (st : plexi_state) : plexi_state :=
  {| new_notification := v;
     actual_routes := actual_routes st;
     rpl_changed_timer := rpl_changed_timer st |}.

Definition set_actual_routes (t : list plexi_actual_route)
    (st : plexi_state) : plexi_state :=
  {| new_notification := new_notification st;
     actual_routes := t;
     rpl_changed_timer := rpl_changed_timer st |}.

Definition set_rpl_changed_timer (tm : ctimer)
    (st : plexi_state) : plexi_state :=
  {| new_notification := new_notification st;
     actual_routes := actual_routes st;
     rpl_changed_timer := tm |}.

(** What the handler reads from the routing stack: the chosen default
    route ([uip_ds6_defrt_lookup(uip_ds6_defrt_choose())], [None] for a
    null pointer), the prefix of the DAG ([rpl_get_any_dag()]) and the
    route table in its own order. *)
Record uip_ds6_route_t : Type := mk_route {
  ipaddr : uip_ipaddr_t;
  nexthop : uip_ipaddr_t                (* uip_ds6_route_nexthop(route) *)
}.

Record rpl_view : Type := mk_view {
  default_route : option uip_ipaddr_t;
  dag_prefix : uip_ipaddr_t;
  routes : list uip_ds6_route_t
}.

(* ================================================================== *)
(** ** The chunk writer *)

Definition bytes : Type := list ascii.

Definition bytes_of (s : string) : bytes := list_ascii_of_string s.

(** The two counters of one serialisation pass and the bytes placed in
    the caller's buffer so far. *)
Record cursor : Type := mk_cursor {
  buffer : bytes;
  bufpos : Z;       (* size_t: position within the buffer (bytes written) *)
  strpos : Z        (* size_t: position in the overall string *)
}.

Definition cursor_start : cursor :=
  {| buffer := []; bufpos := 0; strpos := 0 |}.

(** Modelled from the spec: the three [plexi_reply_*_if_possible]
    helpers live in another file of the repository.  The spec gives them
    one contract: an item that ends at or before the resumption offset is
    skipped for buffering; otherwise the bytes of the item at logical
    positions from the resumption offset on are copied, as many as fit
    into what is left of the buffer, and the tail that does not fit is
    dropped; the logical position always advances by the full length of
    the item and the buffer position by the bytes actually copied. *)
Definition try_emit (item : bytes) (bufsize offset : Z) (c : cursor) : cursor :=
  let item_len := Z.of_nat (List.length item) in
  if strpos c + item_len <=? offset then
    {| buffer := buffer c;
       bufpos := bufpos c;
       strpos := strpos c + item_len |}
  else
    let pending := skipn (Z.to_nat (offset - strpos c)) item in
    let copied := firstn (Z.to_nat (bufsize - bufpos c)) pending in
    {| buffer := buffer c ++ copied;
       bufpos := bufpos c + Z.of_nat (List.length copied);
       strpos := strpos c + item_len |}.

(** Modelled from the spec: a single character is an item of length one. *)
Definition plexi_reply_char_if_possible (ch : ascii)
    (bufsize offset : Z) (c : cursor) : cursor :=
  try_emit [ch] bufsize offset c.

(** Modelled from the spec: a literal string is an item. *)
Definition plexi_reply_string_if_possible (s : string)
    (bufsize offset : Z) (c : cursor) : cursor :=
  try_emit (bytes_of s) bufsize offset c.

(** Modelled from the spec: a formatted address is an item; its text is
    the address formatter's. *)
Definition plexi_reply_ip_if_possible `{plexi_interface} (a : uip_ipaddr_t)
    (bufsize offset : Z) (c : cursor) : cursor :=
  try_emit (bytes_of (ipaddr_text a)) bufsize offset c.

(** The double quote character. *)
Definition dquote : ascii := "034"%char.
Definition DQ : string := String dquote EmptyString.

(** The literals of the handler: a backslash-quote of the source is
    the character [dquote] here. *)
Definition lit_open_list_addr : string := (DQ ++ ":[" ++ DQ)%string.
Definition lit_close_addr_list : string := (DQ ++ "]")%string.
Definition lit_empty_list : string := (DQ ++ ":[]")%string.
Definition lit_next_member : string := ("," ++ DQ)%string.
Definition lit_open_list : string := (DQ ++ ":[")%string.
Definition lit_close_all : string := "]}"%string.

(* ================================================================== *)
(** ** The GET handler *)

Record coap_request : Type := mk_request {
  accept_option : option Z      (* the Accept option, when the request has one *)
}.

Record coap_response : Type := mk_response {
  code : coap_status_t;
  content_type : option Z;
  payload : bytes
}.

Definition set_header_content_type (ct : Z) (r : coap_response) :=
  {| code := code r; content_type := Some ct; payload := payload r |}.

Definition set_response_payload (b : bytes) (len : Z) (r : coap_response) :=
  {| code := code r; content_type := content_type r;
     payload := firstn (Z.to_nat len) b |}.

Definition coap_set_status_code (s : coap_status_t) (r : coap_response) :=
  {| code := s; content_type := content_type r; payload := payload r |}.

Definition coap_set_payload (b : bytes) (len : Z) (r : coap_response) :=
  {| code := code r; content_type := content_type r;
     payload := firstn (Z.to_nat len) b |}.

(** The response as the engine hands it to a handler. *)
Definition response_init : coap_response :=
  {| code := CONTENT_2_05; content_type := None; payload := [] |}.

Section Handler.
Context `{plexi_interface}.

(** The inner [for] over [actual_routes]: the first slot that holds the
    next hop of [r] and is not free emits the child and ends the scan. *)
Fixpoint emit_child_if_actual (slots : list plexi_actual_route)
    (r : uip_ds6_route_t) (first_item : bool)
    (bufsize offset : Z) (c : cursor) : cursor * bool :=
  match slots with
  | [] => (c, first_item)
  | a :: rest =>
    if uip_ipaddr_cmp (nexthop r) (route a) && negb (last_seen a =? -1) then
      let c := if negb first_item
               then plexi_reply_char_if_possible ","%char bufsize offset c
               else c in
      let c := plexi_reply_char_if_possible dquote bufsize offset c in
      let c := plexi_reply_ip_if_possible (ipaddr r) bufsize offset c in
      let c := plexi_reply_char_if_possible dquote bufsize offset c in
      (c, false)
    else emit_child_if_actual rest r first_item bufsize offset c
  end.

(** The outer [for] over the route table, with its early exit. *)
Fixpoint emit_children (rs : list uip_ds6_route_t)
    (slots : list plexi_actual_route) (first_item : bool)
    (bufsize offset : Z) (c : cursor) : cursor * bool :=
  match rs with
  | [] => (c, first_item)
  | r :: rest =>
    let '(c, first_item) :=
      emit_child_if_actual slots r first_item bufsize offset c in
    if (bufpos c >? bufsize)
       && (to_size_t (strpos c - bufpos c) >? to_size_t offset)
    then (c, first_item)
    else emit_children rest slots first_item bufsize offset c
  end.

(** Lines 160 to 216: one serialisation pass. *)
Definition dag_pass (view : rpl_view) (slots : list plexi_actual_route)
    (preferred_size offset : Z) : cursor :=
  let c := cursor_start in
  let c := plexi_reply_char_if_possible "{"%char preferred_size offset c in
  let c :=
    match default_route view with
    | Some dr =>
      let c := plexi_reply_char_if_possible dquote preferred_size offset c in
      let c := plexi_reply_string_if_possible DAG_PARENT_LABEL preferred_size offset c in
      let c := plexi_reply_string_if_possible lit_open_list_addr preferred_size offset c in
      let p := set_u16_0 dr (dag_prefix view) in
      let c := plexi_reply_ip_if_possible p preferred_size offset c in
      plexi_reply_string_if_possible lit_close_addr_list preferred_size offset c
    | None =>
      let c := plexi_reply_char_if_possible dquote preferred_size offset c in
      let c := plexi_reply_string_if_possible DAG_PARENT_LABEL preferred_size offset c in
      plexi_reply_string_if_possible lit_empty_list preferred_size offset c
    end in
  let c := plexi_reply_string_if_possible lit_next_member preferred_size offset c in
  let c := plexi_reply_string_if_possible DAG_CHILD_LABEL preferred_size offset c in
  let c := plexi_reply_string_if_possible lit_open_list preferred_size offset c in
  let '(c, _) :=
    emit_children (routes view) slots true preferred_size offset c in
  plexi_reply_string_if_possible lit_close_all preferred_size offset c.

(** [if(new_notification || *offset == -1) *offset = 0;] *)
Definition start_offset (st : plexi_state) (offset : Z) : Z :=
  if negb (new_notification st =? 0) || (offset =? -1) then 0 else offset.

(** [REST.get_header_accept(request, &accept)] after [accept = -1]. *)
Definition header_accept (request : coap_request) : Z :=
  match accept_option request with
  | Some v => v
  | None => to_uint (-1)
  end.

Definition accepts_json (request : coap_request) : bool :=
  (header_accept request =? to_uint (-1))
  || (header_accept request =? APPLICATION_JSON).

Definition BlockOutOfScope : string := "BlockOutOfScope"%string.

(** [plexi_get_dag_handler]: the new globals, the response and the
    resumption offset written back through [offset]. *)
Definition plexi_get_dag_handler (view : rpl_view) (st : plexi_state)
    (request : coap_request) (response : coap_response)
    (preferred_size offset : Z) : plexi_state * coap_response * Z :=
  if accepts_json request then
    let offset := start_offset st offset in
    let c := dag_pass view (actual_routes st) preferred_size offset in
    let st := set_new_notification 0 st in
    let response :=
      if bufpos c >? 0 then
        set_response_payload (buffer c) (bufpos c)
          (set_header_content_type APPLICATION_JSON response)
      else if strpos c >? 0 then
        coap_set_payload (bytes_of BlockOutOfScope) 15
          (coap_set_status_code BAD_OPTION_4_02 response)
      else response in
    let offset :=
      if strpos c <=? to_uint (to_int32 (offset + preferred_size))
      then -1
      else to_int32 (offset + preferred_size) in
    (st, response, offset)
  else
    (set_new_notification 0 st,
     coap_set_status_code NOT_ACCEPTABLE_4_06 response,
     offset).

(** The client side of a block-wise retrieval: call the handler again
    with the offset it returned until it returns -1, and collect the
    responses.  [None] when [fuel] calls were not enough. *)
Fixpoint get_exchanges (fuel : nat) (view : rpl_view) (st : plexi_state)
    (request : coap_request) (preferred_size offset : Z)
    : option (list coap_response) :=
  match fuel with
  | O => None
  | S fuel' =>
    let '(st', response, offset') :=
      plexi_get_dag_handler view st request response_init
                            preferred_size offset in
    if offset' =? -1 then Some [response]
    else
      match get_exchanges fuel' view st' request preferred_size offset' with
      | Some rest => Some (response :: rest)
      | None => None
      end
  end.

(** The response body as the grammar of the resource describes it: an
    object of two members, the parent label with a list of at most one
    quoted address and the child label with the comma-joined list of the
    quoted addresses of the routes whose next hop has a live slot. *)
Definition quoted (s : string) : bytes := bytes_of (DQ ++ s ++ DQ)%string.

Fixpoint comma_join (items : list bytes) : bytes :=
  match items with
  | [] => []
  | [x] => x
  | x :: rest => x ++ bytes_of ","%string ++ comma_join rest
  end.

Definition nexthop_is_actual (slots : list plexi_actual_route)
    (r : uip_ds6_route_t) : bool :=
  existsb (fun a => uip_ipaddr_cmp (nexthop r) (route a)
                    && negb (last_seen a =? -1)) slots.

Definition dag_json (view : rpl_view) (slots : list plexi_actual_route)
    : bytes :=
  bytes_of "{"%string ++ quoted DAG_PARENT_LABEL ++ bytes_of ":["%string
  ++ match default_route view with
     | Some dr => quoted (ipaddr_text (set_u16_0 dr (dag_prefix view)))
     | None => []
     end
  ++ bytes_of "],"%string ++ quoted DAG_CHILD_LABEL ++ bytes_of ":["%string
  ++ comma_join
       (map (fun r => quoted (ipaddr_text (ipaddr r)))
            (filter (nexthop_is_actual slots) (routes view)))
  ++ bytes_of "]}"%string.

End Handler.

(* ================================================================== *)
(** ** The table of recently heard neighbours *)

(** The first [for] of [plexi_rpl_packet_received]: the first slot whose
    address is [from] gets the current time. *)
Fixpoint refresh_first_match (slots : list plexi_actual_route)
    (from : uip_ipaddr_t) (now : Z) : list plexi_actual_route :=
  match slots with
  | [] => []
  | a :: rest =>
    if uip_ipaddr_cmp (route a) from
    then {| route := route a; last_seen := now |} :: rest
    else a :: refresh_first_match rest from now
  end.

(** The second [for]: the first free slot takes [from] and the current
    time. *)
Fixpoint claim_first_free (slots : list plexi_actual_route)
    (from : uip_ipaddr_t) (now : Z) : list plexi_actual_route :=
  match slots with
  | [] => []
  | a :: rest =>
    if last_seen a =? -1
    then {| route := from; last_seen := now |} :: rest
    else a :: claim_first_free rest from now
  end.

(** [plexi_rpl_packet_received]: [from] is the source address of the
    packet in [UIP_IP_BUF] and [clock] what [clock_seconds()] returns, an
    [unsigned long] stored into the [long] field.  The only assignment
    to [updated] is its initialisation. *)
Definition plexi_rpl_packet_received (from : uip_ipaddr_t) (clock : Z)
    (st : plexi_state) : plexi_state :=
  let updated := 0 in
  let slots := refresh_first_match (actual_routes st) from (to_long clock) in
  let slots :=
    if updated =? 0
    then claim_first_free slots from (to_long clock)
    else slots in
  set_actual_routes slots st.

(** The [for] in the body of the process [blabla]: the first slot with
    [last_seen < clock_seconds() - PLEXI_RPL_UPDATE_INTERVAL] is freed.
    The right-hand side is an [unsigned long], so the [long] on the left
    is converted to [unsigned long] before the comparison. *)
Fixpoint sweep_slots (slots : list plexi_actual_route) (clock : Z)
    : list plexi_actual_route :=
  match slots with
  | [] => []
  | a :: rest =>
    if to_ulong (last_seen a)
       <? to_ulong (clock - PLEXI_RPL_UPDATE_INTERVAL)
    then {| route := route a; last_seen := -1 |} :: rest
    else a :: sweep_slots rest clock
  end.

(** One turn of the loop of [blabla], run each time its timer expires. *)
Definition blabla_tick (clock : Z) (st : plexi_state) : plexi_state :=
  set_actual_routes (sweep_slots (actual_routes st) clock) st.

(** [plexi_rpl_init]: every slot is marked free. *)
Definition plexi_rpl_init (st : plexi_state) : plexi_state :=
  set_actual_routes
    (map (fun a => {| route := route a; last_seen := -1 |})
         (actual_routes st)) st.

(** The globals before [plexi_rpl_init], with a table of [n] slots. *)
Definition plexi_state_bss (n : nat) : plexi_state :=
  {| new_notification := 0;
     actual_routes := repeat {| route := ipaddr_zero; last_seen := 0 |} n;
     rpl_changed_timer := IDLE |}.

Definition slot_live (a : plexi_actual_route) : bool :=
  negb (last_seen a =? -1).

(** The slots that hold [addr] and are not free. *)
Definition entries_of (addr : uip_ipaddr_t)
    (slots : list plexi_actual_route) : list plexi_actual_route :=
  filter (fun a => uip_ipaddr_cmp (route a) addr && slot_live a) slots.

(** A run of packets, each with its source address and the clock. *)
Definition packets_received (pkts : list (uip_ipaddr_t * Z))
    (st : plexi_state) : plexi_state :=
  fold_left (fun st p => plexi_rpl_packet_received (fst p) (snd p) st)
            pkts st.

(* ================================================================== *)
(** ** The delayed notification *)

(** Calls into the REST engine that a handler makes. *)
Inductive rest_call : Type :=
| REST_notify_subscribers.      (* REST.notify_subscribers(&resource_rpl_dag) *)

Definition plexi_dag_event_handler (st : plexi_state)
    : plexi_state * list rest_call :=
  (set_new_notification 1 st, [REST_notify_subscribers]).

Definition plexi_rpl_changed_handler (st : plexi_state)
    : plexi_state * list rest_call :=
  plexi_dag_event_handler st.

(** Modelled from the spec: [ctimer_set] (re)arms the timer to now plus
    the interval, whatever its state was. *)
Definition ctimer_set (now interval : Z) : ctimer := ARMED (now + interval).

Definition is_route_change (event : uip_ds6_notification) : bool :=
  match event with
  | UIP_DS6_NOTIFICATION_ROUTE_ADD | UIP_DS6_NOTIFICATION_ROUTE_RM => true
  | _ => false
  end.

Definition debounce_interval `{plexi_interface} : Z :=
  PLEXI_RPL_UPDATE_INTERVAL * CLOCK_SECOND.

(** [rpl_changed_callback], called at clock time [now]. *)
Definition rpl_changed_callback `{plexi_interface}
    (event : uip_ds6_notification) (now : Z) (st : plexi_state)
    : plexi_state :=
  if is_route_change event
  then set_rpl_changed_timer (ctimer_set now debounce_interval) st
  else st.

(** Modelled from the spec: the host scheduler.  It serialises all event
    handling; an armed timer whose time has come fires once, returns to
    [IDLE] and runs the callback registered with it.  [delivered] lists
    the clock times at which the subscribers were notified. *)
Record host : Type := mk_host {
  plexi : plexi_state;
  delivered : list Z
}.

Definition host_advance (until : Z) (h : host) : host :=
  match rpl_changed_timer (plexi h) with
  | ARMED fire_at =>
    if fire_at <=? until then
      let '(st, calls) :=
        plexi_rpl_changed_handler (set_rpl_changed_timer IDLE (plexi h)) in
      {| plexi := st;
         delivered := delivered h ++ map (fun _ => fire_at) calls |}
    else h
  | IDLE => h
  end.

(** A routing-change signal raised at clock time [fst ev]. *)
Definition host_route_event `{plexi_interface} (h : host)
    (ev : Z * uip_ds6_notification) : host :=
  let h := host_advance (fst ev) h in
  {| plexi := rpl_changed_callback (snd ev) (fst ev) (plexi h);
     delivered := delivered h |}.

Definition host_run `{plexi_interface}
    (evs : list (Z * uip_ds6_notification)) (h : host) : host :=
  fold_left host_route_event evs h.

(** The events that follow one at time [t], each a route addition or
    removal less than [interval] after the one before it. *)
Fixpoint burst_after (interval t : Z)
    (evs : list (Z * uip_ds6_notification)) : Prop :=
  match evs with
  | [] => True
  | ev :: rest =>
    t <= fst ev /\ fst ev - t < interval
    /\ is_route_change (snd ev) = true
    /\ burst_after interval (fst ev) rest
  end.

(** The time of the last event of a burst that starts at [t]. *)
Fixpoint last_event_time (t : Z) (evs : list (Z * uip_ds6_notification)) : Z :=
  match evs with
  | [] => t
  | ev :: rest => last_event_time (fst ev) rest
  end.

(* ================================================================== *)
(** ** Concrete scenarios *)

(** An instance of the interface: the labels of the resource, sixteen
    octets written as hexadecimal pairs, 128 ticks per second. *)
Definition hex_digit (n : Z) : ascii :=
  if n <? 10 then ascii_of_nat (Z.to_nat (48 + n))
  else ascii_of_nat (Z.to_nat (87 + n)).

Fixpoint hex_octets (a : list Z) : string :=
  match a with
  | [] => EmptyString
  | o :: rest => String (hex_digit (o / 16))
                        (String (hex_digit (o mod 16)) (hex_octets rest))
  end.

#[export] Instance demo_interface : plexi_interface := {
  DAG_PARENT_LABEL := "parent"%string;
  DAG_CHILD_LABEL := "child"%string;
  ipaddr_text := hex_octets;
  CLOCK_SECOND := 128
}.

(** Short addresses keep the scenarios readable. *)
Definition addr_A : uip_ipaddr_t := [254; 128; 0; 1].
Definition addr_B : uip_ipaddr_t := [254; 128; 0; 2].
Definition addr_C : uip_ipaddr_t := [254; 128; 0; 3].
Definition addr_P : uip_ipaddr_t := [254; 128; 0; 9].
Definition prefix_aaaa : uip_ipaddr_t := [170; 170; 0; 0].

(** A node with a parent and three routes: two through [addr_A], whose
    slot is live, and one through [addr_C], whose slot is free. *)
Definition demo_view : rpl_view :=
  {| default_route := Some addr_P;
     dag_prefix := prefix_aaaa;
     routes := [ {| ipaddr := addr_A; nexthop := addr_A |};
                 {| ipaddr := addr_B; nexthop := addr_A |};
                 {| ipaddr := addr_C; nexthop := addr_C |} ] |}.

Definition demo_state (flag : Z) : plexi_state :=
  {| new_notification := flag;
     actual_routes := [ {| route := addr_A; last_seen := 7 |};
                        {| route := addr_C; last_seen := -1 |} ];
     rpl_changed_timer := IDLE |}.

Definition request_any : coap_request := {| accept_option := None |}.
Definition request_json : coap_request :=
  {| accept_option := Some APPLICATION_JSON |}.
(** Content format 41 is application/xml. *)
Definition request_xml : coap_request := {| accept_option := Some 41 |}.

(** A table of two slots right after [plexi_rpl_init]. *)
Definition two_free_slots : plexi_state := plexi_rpl_init (plexi_state_bss 2).

Definition host_idle : host :=
  {| plexi := two_free_slots; delivered := [] |}.

(* ================================================================== *)
(** ** Vocabulary of the statements *)

(** The bytes of [full] that a chunk of capacity [bufsize] starting at
    logical position [offset] holds. *)
Definition window (offset bufsize : Z) (full : bytes) : bytes :=
  firstn (Z.to_nat bufsize) (skipn (Z.to_nat offset) full).

(** A cursor that has walked the logical output [done] for such a
    chunk. *)
Definition walked (offset bufsize : Z) (done : bytes) (c : cursor) : Prop :=
  buffer c = window offset bufsize done
  /\ bufpos c = Z.of_nat (List.length (buffer c))
  /\ strpos c = Z.of_nat (List.length done).

(** The children as the loop writes them: a comma before every item but
    the first one of the whole list. *)
Definition sep_join (first_item : bool) (items : list bytes) : bytes :=
  match items with
  | [] => []
  | _ => (if first_item then [] else bytes_of ","%string) ++ comma_join items
  end.

(** The text of the children of a route table. *)
Definition children_of `{plexi_interface} (slots : list plexi_actual_route)
    (rs : list uip_ds6_route_t) : list bytes :=
  map (fun r => quoted (ipaddr_text (ipaddr r)))
      (filter (nexthop_is_actual slots) rs).

(** A successful response that carries [chunk]. *)
Definition json_chunk (chunk : bytes) : coap_response :=
  {| code := CONTENT_2_05;
     content_type := Some APPLICATION_JSON;
     payload := chunk |}.

(** The response of the handler when nothing was placed in the buffer. *)
Definition block_out_of_scope : coap_response :=
  {| code := BAD_OPTION_4_02;
     content_type := None;
     payload := bytes_of BlockOutOfScope |}.

Definition all_free (slots : list plexi_actual_route) : Prop :=
  Forall (fun a => last_seen a = -1) slots.

Definition all_live (slots : list plexi_actual_route) : Prop :=
  Forall (fun a => last_seen a <> -1) slots.

(** A timestamp that the [long] field can hold and that is not the mark
    of a free slot. *)
Definition clock_valid (clock : Z) : Prop := 0 <= clock <= INT32_MAX.

(** A slot whose age at [clock] exceeds the staleness threshold. *)
Definition stale (clock : Z) (a : plexi_actual_route) : Prop :=
  last_seen a <> -1 /\ clock - last_seen a > PLEXI_RPL_UPDATE_INTERVAL.

(** Tables whose timestamps came from a valid clock. *)
Definition table_wf (slots : list plexi_actual_route) : Prop :=
  Forall (fun a => -1 <= last_seen a <= INT32_MAX) slots.

Definition free_slot (a : plexi_actual_route) : plexi_actual_route :=
  {| route := route a; last_seen := -1 |}.

Definition count_free (slots : list plexi_actual_route) : nat :=
  List.length (filter (fun a => last_seen a =? -1) slots).

(** The slots after one packet. *)
Definition observe (slots : list plexi_actual_route)
    (from : uip_ipaddr_t) (now : Z) : list plexi_actual_route :=
  claim_first_free (refresh_first_match slots from now) from now.

(** Live slots only ever hold addresses that were heard. *)
Definition live_within (seen : list uip_ipaddr_t)
    (slots : list plexi_actual_route) : Prop :=
  Forall (fun a => last_seen a <> -1 -> In (route a) seen) slots.

(** The three results of a call of the handler. *)
Definition state_after (r : plexi_state * coap_response * Z) : plexi_state :=
  fst (fst r).
Definition response_of (r : plexi_state * coap_response * Z) : coap_response :=
  snd (fst r).
Definition offset_after (r : plexi_state * coap_response * Z) : Z := snd r.

(** A response that reports success and carries JSON. *)
Definition is_json_chunk (r : coap_response) : Prop :=
  code r = CONTENT_2_05 /\ content_type r = Some APPLICATION_JSON.

(** The number of entries of a table. *)
Definition live_count (slots : list plexi_actual_route) : nat :=
  List.length (filter slot_live slots).

(** Several turns of the loop of [blabla], one for each expiry of its
    timer, with the clock read at each. *)
Definition blabla_run (clocks : list Z) (st : plexi_state) : plexi_state :=
  fold_left (fun st clock => blabla_tick clock st) clocks st.

(** A clock at which the subtraction of the sweep does not wrap. *)
Definition sweep_clock (clock : Z) : Prop :=
  PLEXI_RPL_UPDATE_INTERVAL <= clock <= 4294967295.

(** A view with another route table. *)
Definition with_routes (rs : list uip_ds6_route_t) (view : rpl_view)
    : rpl_view :=
  {| default_route := default_route view;
     dag_prefix := dag_prefix view;
     routes := rs |}.

(* ================================================================== *)
(** * Lemmas *)

(** ** Conversions that change nothing *)

Lemma to_uint_small (x : Z) : 0 <= x < 4294967296 -> to_uint x = x.
Proof.
  intros Hx. unfold to_uint, to_unsigned, WORD_BITS.
  change (2 ^ 32) with 4294967296. now apply Z.mod_small.
Qed.

Lemma to_size_t_small (x : Z) : 0 <= x < 4294967296 -> to_size_t x = x.
Proof. exact (to_uint_small x). Qed.

Lemma to_ulong_small (x : Z) : 0 <= x < 4294967296 -> to_ulong x = x.
Proof. exact (to_uint_small x). Qed.

Lemma to_int32_small (x : Z) :
  -2147483648 <= x <= 2147483647 -> to_int32 x = x.
Proof.
  intros Hx. unfold to_int32, to_signed, WORD_BITS.
  change (2 ^ (32 - 1)) with 2147483648. change (2 ^ 32) with 4294967296.
  rewrite Z.mod_small; lia.
Qed.

Lemma to_long_small (x : Z) :
  -2147483648 <= x <= 2147483647 -> to_long x = x.
Proof. exact (to_int32_small x). Qed.

Lemma to_ulong_minus_one : to_ulong (-1) = 4294967295.
Proof. reflexivity. Qed.

Lemma to_ulong_wraps_below_zero (x : Z) :
  -4294967296 <= x < 0 -> to_ulong x = x + 4294967296.
Proof.
  intros Hx. unfold to_ulong, to_unsigned, WORD_BITS.
  change (2 ^ 32) with 4294967296.
  symmetry. apply Z.mod_unique with (q := -1); lia.
Qed.

Lemma gtb_false (a b : Z) : a <= b -> (a >? b) = false.
Proof. intros Hab. rewrite Z.gtb_ltb. now apply Z.ltb_ge. Qed.

Lemma uip_ipaddr_cmp_true (a b : uip_ipaddr_t) :
  uip_ipaddr_cmp a b = true <-> a = b.
Proof.
  unfold uip_ipaddr_cmp. destruct (uip_ipaddr_eq_dec a b); split;
    intros; congruence.
Qed.

Lemma uip_ipaddr_cmp_false (a b : uip_ipaddr_t) :
  uip_ipaddr_cmp a b = false <-> a <> b.
Proof.
  unfold uip_ipaddr_cmp. destruct (uip_ipaddr_eq_dec a b); split;
    intros; congruence.
Qed.

(** ** Strings as bytes *)

Lemma bytes_of_app (s1 s2 : string) :
  bytes_of (s1 ++ s2)%string = bytes_of s1 ++ bytes_of s2.
Proof.
  unfold bytes_of. induction s1 as [|ch s1 IH]; simpl; [reflexivity|].
  now rewrite IH.
Qed.

Lemma quoted_eq (s : string) :
  quoted s = [dquote] ++ bytes_of s ++ [dquote].
Proof. unfold quoted. now rewrite !bytes_of_app. Qed.

(** ** The chunk writer keeps the window *)

Lemma window_nil (offset bufsize : Z) : window offset bufsize [] = [].
Proof. unfold window. now rewrite skipn_nil, firstn_nil. Qed.

Lemma window_length_le (offset bufsize : Z) (full : bytes) :
  0 <= bufsize ->
  Z.of_nat (List.length (window offset bufsize full)) <= bufsize.
Proof.
  intros Hb. unfold window. rewrite length_firstn. lia.
Qed.

Lemma walked_start (offset bufsize : Z) :
  walked offset bufsize [] cursor_start.
Proof. unfold walked. now rewrite window_nil. Qed.

Lemma try_emit_walked (item done : bytes) (offset bufsize : Z) (c : cursor) :
  walked offset bufsize done c ->
  walked offset bufsize (done ++ item) (try_emit item bufsize offset c).
Proof.
  intros (Hbuf & Hpos & Hstr). unfold try_emit, walked.
  rewrite Hstr, Hpos, Hbuf.
  destruct (Z.leb_spec (Z.of_nat (List.length done)
                        + Z.of_nat (List.length item)) offset) as [Hle|Hgt];
    cbn [buffer bufpos strpos]; rewrite ?Hbuf.
  - repeat split.
    + unfold window. rewrite !skipn_all2; [reflexivity| |];
        rewrite ?length_app; lia.
    + rewrite length_app. lia.
  - assert (Hw : window offset bufsize (done ++ item)
                 = window offset bufsize done
                   ++ firstn (Z.to_nat (bufsize - Z.of_nat
                               (List.length (window offset bufsize done))))
                        (skipn (Z.to_nat (offset
                                 - Z.of_nat (List.length done))) item)).
    { unfold window. rewrite skipn_app, firstn_app. f_equal.
      rewrite length_firstn.
      replace (Z.to_nat offset - List.length done)%nat
        with (Z.to_nat (offset - Z.of_nat (List.length done))) by lia.
      f_equal. lia. }
    repeat split.
    + now rewrite Hw.
    + rewrite length_app. lia.
    + rewrite length_app. lia.
Qed.

Lemma walked_bufpos_le (offset bufsize : Z) (done : bytes) (c : cursor) :
  0 <= bufsize -> walked offset bufsize done c -> bufpos c <= bufsize.
Proof.
  intros Hb (Hbuf & Hpos & _). rewrite Hpos, Hbuf.
  now apply window_length_le.
Qed.

(** ** One pass of the handler walks the whole response body *)

Section PassLemmas.
Context `{plexi_interface}.

Lemma reply_char_walked ch done offset bufsize c :
  walked offset bufsize done c ->
  walked offset bufsize (done ++ [ch])
         (plexi_reply_char_if_possible ch bufsize offset c).
Proof. intros. now apply try_emit_walked. Qed.

Lemma reply_string_walked s done offset bufsize c :
  walked offset bufsize done c ->
  walked offset bufsize (done ++ bytes_of s)
         (plexi_reply_string_if_possible s bufsize offset c).
Proof. intros. now apply try_emit_walked. Qed.

Lemma reply_ip_walked a done offset bufsize c :
  walked offset bufsize done c ->
  walked offset bufsize (done ++ bytes_of (ipaddr_text a))
         (plexi_reply_ip_if_possible a bufsize offset c).
Proof. intros. now apply try_emit_walked. Qed.

(** The scan of the slots decides membership only; what it writes does
    not depend on the slot that matched. *)
Lemma emit_child_if_actual_eq slots r first_item bufsize offset c :
  emit_child_if_actual slots r first_item bufsize offset c
  = if nexthop_is_actual slots r then
      (plexi_reply_char_if_possible dquote bufsize offset
         (plexi_reply_ip_if_possible (ipaddr r) bufsize offset
            (plexi_reply_char_if_possible dquote bufsize offset
               (if negb first_item
                then plexi_reply_char_if_possible ","%char bufsize offset c
                else c))),
       false)
    else (c, first_item).
Proof.
  unfold nexthop_is_actual.
  induction slots as [|a rest IH]; simpl; [reflexivity|].
  destruct (uip_ipaddr_cmp (nexthop r) (route a)
            && negb (last_seen a =? -1)); simpl; [reflexivity|exact IH].
Qed.

Lemma sep_join_cons first_item (x : bytes) (rest : list bytes) :
  sep_join first_item (x :: rest)
  = (if first_item then [] else bytes_of ","%string)
    ++ x ++ sep_join false rest.
Proof.
  unfold sep_join. destruct rest as [|y rest]; simpl comma_join.
  - now rewrite app_nil_r.
  - reflexivity.
Qed.

Lemma emit_children_walked rs :
  forall slots first_item bufsize offset done c,
    0 <= bufsize ->
    walked offset bufsize done c ->
    walked offset bufsize
           (done ++ sep_join first_item (children_of slots rs))
           (fst (emit_children rs slots first_item bufsize offset c)).
Proof.
  induction rs as [|r rest IH]; intros slots first_item bufsize offset done c
    Hb Hw.
  - simpl. now rewrite app_nil_r.
  - simpl emit_children. rewrite emit_child_if_actual_eq.
    unfold children_of in *. simpl filter.
    destruct (nexthop_is_actual slots r) eqn:Hact.
    + set (c0 := if negb first_item
                 then plexi_reply_char_if_possible ","%char bufsize offset c
                 else c).
      set (sep := if first_item then [] else bytes_of ","%string).
      assert (H0 : walked offset bufsize (done ++ sep) c0).
      { subst c0 sep. destruct first_item; simpl negb; cbv iota.
        - now rewrite app_nil_r.
        - now apply reply_char_walked. }
      pose proof (reply_char_walked dquote _ _ _ _ H0) as H1.
      pose proof (reply_ip_walked (ipaddr r) _ _ _ _ H1) as H2.
      pose proof (reply_char_walked dquote _ _ _ _ H2) as H3.
      pose proof (walked_bufpos_le _ _ _ _ Hb H3) as Hle.
      cbv zeta. simpl fst. simpl snd.
      rewrite (gtb_false _ _ Hle). simpl andb. cbv iota.
      specialize (IH slots false bufsize offset _ _ Hb H3).
      simpl map. rewrite sep_join_cons, quoted_eq. fold sep.
      rewrite <- !app_assoc in IH. rewrite <- !app_assoc. exact IH.
    + pose proof (walked_bufpos_le _ _ _ _ Hb Hw) as Hle.
      rewrite (gtb_false _ _ Hle). simpl andb. cbv iota.
      now apply IH.
Qed.

End PassLemmas.

Section HandlerLemmas.
Context `{plexi_interface}.

Lemma walked_ext offset bufsize done done' c :
  done = done' -> walked offset bufsize done c -> walked offset bufsize done' c.
Proof. now intros ->. Qed.

(** The pass leaves in the buffer the window of the response body at
    the resumption offset, and in [strpos] the length of the body. *)
Lemma dag_pass_walked view slots preferred_size offset :
  0 <= preferred_size ->
  walked offset preferred_size (dag_json view slots)
         (dag_pass view slots preferred_size offset).
Proof.
  intros Hb. unfold dag_pass.
  pose proof (reply_char_walked "{"%char _ _ _ _
                (walked_start offset preferred_size)) as W0.
  set (c0 := plexi_reply_char_if_possible "{"%char preferred_size offset
               cursor_start) in *.
  assert (W1 : walked offset preferred_size
                 (bytes_of "{"%string ++ quoted DAG_PARENT_LABEL
                  ++ bytes_of ":["%string
                  ++ match default_route view with
                     | Some dr =>
                       quoted (ipaddr_text (set_u16_0 dr (dag_prefix view)))
                     | None => []
                     end
                  ++ bytes_of "]"%string)
                 match default_route view with
                 | Some dr =>
                   plexi_reply_string_if_possible lit_close_addr_list
                     preferred_size offset
                     (plexi_reply_ip_if_possible
                        (set_u16_0 dr (dag_prefix view)) preferred_size offset
                        (plexi_reply_string_if_possible lit_open_list_addr
                           preferred_size offset
                           (plexi_reply_string_if_possible DAG_PARENT_LABEL
                              preferred_size offset
                              (plexi_reply_char_if_possible dquote
                                 preferred_size offset c0))))
                 | None =>
                   plexi_reply_string_if_possible lit_empty_list
                     preferred_size offset
                     (plexi_reply_string_if_possible DAG_PARENT_LABEL
                        preferred_size offset
                        (plexi_reply_char_if_possible dquote
                           preferred_size offset c0))
                 end).
  { destruct (default_route view) as [dr|].
    - pose proof (reply_char_walked dquote _ _ _ _ W0) as A1.
      pose proof (reply_string_walked DAG_PARENT_LABEL _ _ _ _ A1) as A2.
      pose proof (reply_string_walked lit_open_list_addr _ _ _ _ A2) as A3.
      pose proof (reply_ip_walked (set_u16_0 dr (dag_prefix view))
                    _ _ _ _ A3) as A4.
      pose proof (reply_string_walked lit_close_addr_list _ _ _ _ A4) as A5.
      eapply walked_ext; [|exact A5].
      rewrite !quoted_eq. rewrite <- !app_assoc. reflexivity.
    - pose proof (reply_char_walked dquote _ _ _ _ W0) as A1.
      pose proof (reply_string_walked DAG_PARENT_LABEL _ _ _ _ A1) as A2.
      pose proof (reply_string_walked lit_empty_list _ _ _ _ A2) as A3.
      eapply walked_ext; [|exact A3].
      rewrite !quoted_eq. rewrite <- !app_assoc. reflexivity. }
  cbv zeta.
  match type of W1 with walked _ _ _ ?c => set (c1 := c) in * end.
  pose proof (reply_string_walked lit_next_member _ _ _ _ W1) as W2.
  pose proof (reply_string_walked DAG_CHILD_LABEL _ _ _ _ W2) as W3.
  pose proof (reply_string_walked lit_open_list _ _ _ _ W3) as W4.
  pose proof (emit_children_walked (routes view) slots true
                preferred_size offset _ _ Hb W4) as W5.
  destruct (emit_children (routes view) slots true preferred_size offset _)
    as [c5 first5] eqn:E5.
  simpl fst in W5.
  pose proof (reply_string_walked lit_close_all _ _ _ _ W5) as W6.
  eapply walked_ext; [|exact W6].
  unfold dag_json, children_of, sep_join.
  rewrite !quoted_eq. rewrite <- !app_assoc.
  destruct (map _ (filter _ (routes view))); reflexivity.
Qed.

End HandlerLemmas.

Section HandlerResults.
Context `{plexi_interface}.

Lemma dag_json_nonempty view slots :
  (0 < List.length (dag_json view slots))%nat.
Proof. unfold dag_json. simpl. lia. Qed.

Lemma window_length offset bufsize (full : bytes) :
  0 <= offset -> 0 <= bufsize ->
  Z.of_nat (List.length (window offset bufsize full))
  = Z.min bufsize (Z.max 0 (Z.of_nat (List.length full) - offset)).
Proof.
  intros Ho Hb. unfold window. rewrite length_firstn, length_skipn. lia.
Qed.

(** What an accepted call returns, in terms of the response body. *)
Lemma handler_accepted view st request response preferred_size offset :
  accepts_json request = true ->
  0 <= preferred_size ->
  let body := dag_json view (actual_routes st) in
  let start := start_offset st offset in
  let chunk := window start preferred_size body in
  plexi_get_dag_handler view st request response preferred_size offset
  = (set_new_notification 0 st,
     (if Z.of_nat (List.length chunk) >? 0 then
        set_response_payload chunk (Z.of_nat (List.length chunk))
          (set_header_content_type APPLICATION_JSON response)
      else
        coap_set_payload (bytes_of BlockOutOfScope) 15
          (coap_set_status_code BAD_OPTION_4_02 response)),
     (if Z.of_nat (List.length body)
         <=? to_uint (to_int32 (start + preferred_size))
      then -1 else to_int32 (start + preferred_size))).
Proof.
  intros Hacc Hb body start chunk.
  unfold plexi_get_dag_handler. rewrite Hacc. cbv zeta.
  destruct (dag_pass_walked view (actual_routes st) preferred_size
              (start_offset st offset) Hb) as (Hbuf & Hpos & Hstr).
  fold start in Hbuf, Hpos, Hstr |- *. fold body in Hbuf, Hstr.
  fold chunk in Hbuf.
  rewrite Hstr, Hpos, Hbuf.
  pose proof (dag_json_nonempty view (actual_routes st)) as Hne.
  fold body in Hne.
  replace (Z.of_nat (List.length body) >? 0) with true
    by (symmetry; apply Z.gtb_lt; lia).
  reflexivity.
Qed.

Lemma json_chunk_eq (chunk : bytes) :
  set_response_payload chunk (Z.of_nat (List.length chunk))
    (set_header_content_type APPLICATION_JSON response_init)
  = json_chunk chunk.
Proof.
  unfold set_response_payload, set_header_content_type, json_chunk.
  simpl. now rewrite Nat2Z.id, firstn_all.
Qed.

Lemma block_out_of_scope_eq :
  coap_set_payload (bytes_of BlockOutOfScope) 15
    (coap_set_status_code BAD_OPTION_4_02 response_init)
  = block_out_of_scope.
Proof. reflexivity. Qed.

Lemma start_offset_continuation st offset :
  new_notification st = 0 -> 0 <= offset -> start_offset st offset = offset.
Proof.
  intros Hflag Ho. unfold start_offset. rewrite Hflag. simpl.
  destruct (Z.eqb_spec offset (-1)); [lia|reflexivity].
Qed.

Lemma start_offset_fresh st : start_offset st (-1) = 0.
Proof.
  unfold start_offset. now rewrite orb_true_r.
Qed.

Lemma start_offset_notified st offset :
  new_notification st <> 0 -> start_offset st offset = 0.
Proof.
  intros Hflag. unfold start_offset.
  destruct (Z.eqb_spec (new_notification st) 0); [contradiction|reflexivity].
Qed.

(** The retrieval from any position inside the body: with enough calls
    it ends, every response is a success and the chunks make up the rest
    of the body. *)
Lemma get_exchanges_from view request preferred_size :
  accepts_json request = true ->
  1 <= preferred_size ->
  forall (fuel : nat) (st : plexi_state) (offset : Z),
    let body := dag_json view (actual_routes st) in
    let start := start_offset st offset in
    0 <= start < Z.of_nat (List.length body) ->
    Z.of_nat (List.length body) + preferred_size <= INT32_MAX ->
    Z.of_nat (List.length body) - start <= Z.of_nat fuel ->
    exists responses,
      get_exchanges fuel view st request preferred_size offset
      = Some responses
      /\ Forall (fun r => code r = CONTENT_2_05
                          /\ content_type r = Some APPLICATION_JSON) responses
      /\ List.concat (map payload responses) = skipn (Z.to_nat start) body.
Proof.
  intros Hacc Hb. unfold INT32_MAX.
  induction fuel as [|fuel IH]; intros st offset Hs Hmax Hfuel;
    set (body := dag_json view (actual_routes st)) in *;
    set (start := start_offset st offset) in *.
  - lia.
  - simpl get_exchanges.
    rewrite (handler_accepted view st request response_init preferred_size
               offset Hacc ltac:(lia)).
    fold body. fold start.
    set (chunk := window start preferred_size body).
    assert (Hlen : Z.of_nat (List.length chunk)
                   = Z.min preferred_size (Z.of_nat (List.length body) - start)).
    { unfold chunk. rewrite window_length; lia. }
    replace (Z.of_nat (List.length chunk) >? 0) with true
      by (symmetry; apply Z.gtb_lt; lia).
    rewrite json_chunk_eq.
    rewrite (to_int32_small (start + preferred_size)) by lia.
    rewrite (to_uint_small (start + preferred_size)) by lia.
    destruct (Z.leb_spec (Z.of_nat (List.length body))
                         (start + preferred_size)) as [Hend|Hmore].
    + simpl. exists [json_chunk chunk]. repeat split.
      * repeat constructor.
      * simpl. rewrite app_nil_r. unfold chunk, window.
        apply firstn_all2. rewrite length_skipn. lia.
    + destruct (Z.eqb_spec (start + preferred_size) (-1)) as [E|_]; [lia|].
      assert (Hstart' : start_offset (set_new_notification 0 st)
                          (start + preferred_size)
                        = start + preferred_size).
      { apply start_offset_continuation; [reflexivity|lia]. }
      destruct (IH (set_new_notification 0 st) (start + preferred_size))
        as (rest & Hrest & Hok & Hcat).
      * rewrite Hstart'. simpl actual_routes. fold body. lia.
      * simpl actual_routes. fold body. lia.
      * rewrite Hstart'. simpl actual_routes. fold body. lia.
      * rewrite Hrest. exists (json_chunk chunk :: rest). repeat split.
        -- constructor; [split; reflexivity|exact Hok].
        -- simpl map. simpl List.concat.
           rewrite Hcat, Hstart'. simpl actual_routes. fold body.
           unfold chunk, window.
           replace (Z.to_nat (start + preferred_size))
             with (Z.to_nat preferred_size + Z.to_nat start)%nat by lia.
           rewrite <- skipn_skipn. apply firstn_skipn.
Qed.

End HandlerResults.

(** ** The table of recently heard neighbours *)

Lemma packet_received_slots from clock st :
  actual_routes (plexi_rpl_packet_received from clock st)
  = observe (actual_routes st) from (to_long clock).
Proof. reflexivity. Qed.

Lemma set_actual_routes_same st : set_actual_routes (actual_routes st) st = st.
Proof. now destruct st. Qed.

Lemma clock_valid_to_long clock :
  clock_valid clock -> to_long clock = clock /\ to_long clock <> -1.
Proof.
  unfold clock_valid, INT32_MAX. intros Hc.
  rewrite to_long_small by lia. lia.
Qed.

Lemma refresh_length slots from now :
  List.length (refresh_first_match slots from now) = List.length slots.
Proof.
  induction slots as [|a rest IH]; simpl; [reflexivity|].
  destruct (uip_ipaddr_cmp (route a) from); simpl; congruence.
Qed.

Lemma claim_length slots from now :
  List.length (claim_first_free slots from now) = List.length slots.
Proof.
  induction slots as [|a rest IH]; simpl; [reflexivity|].
  destruct (last_seen a =? -1); simpl; congruence.
Qed.

Lemma observe_length slots from now :
  List.length (observe slots from now) = List.length slots.
Proof. unfold observe. now rewrite claim_length, refresh_length. Qed.

Lemma refresh_count_free slots from now :
  now <> -1 ->
  (count_free (refresh_first_match slots from now) <= count_free slots)%nat.
Proof.
  intros Hnow. unfold count_free.
  induction slots as [|a rest IH]; simpl; [lia|].
  destruct (uip_ipaddr_cmp (route a) from); simpl.
  - destruct (Z.eqb_spec now (-1)); [contradiction|].
    destruct (last_seen a =? -1); simpl; lia.
  - destruct (last_seen a =? -1); simpl; lia.
Qed.

Lemma claim_count_free slots from now :
  now <> -1 ->
  count_free (claim_first_free slots from now) = (count_free slots - 1)%nat.
Proof.
  intros Hnow. unfold count_free.
  induction slots as [|a rest IH]; simpl; [reflexivity|].
  destruct (last_seen a =? -1) eqn:Hfree; simpl.
  - destruct (Z.eqb_spec now (-1)); [contradiction|]. lia.
  - now rewrite Hfree.
Qed.

Lemma observe_count_free slots from now :
  now <> -1 ->
  (count_free (observe slots from now) <= count_free slots - 1)%nat.
Proof.
  intros Hnow. unfold observe. rewrite claim_count_free by assumption.
  pose proof (refresh_count_free slots from now Hnow). lia.
Qed.

Lemma count_free_zero_all_live slots :
  count_free slots = 0%nat <-> all_live slots.
Proof.
  unfold count_free, all_live.
  induction slots as [|a rest IH]; simpl.
  - split; [constructor|reflexivity].
  - destruct (Z.eqb_spec (last_seen a) (-1)) as [E|E]; simpl.
    + split; [discriminate|]. intros Hall. inversion Hall. contradiction.
    + rewrite IH. split.
      * now constructor.
      * intros Hall. now inversion Hall.
Qed.

Lemma count_free_le_length slots :
  (count_free slots <= List.length slots)%nat.
Proof. unfold count_free. apply filter_length_le. Qed.

Lemma live_within_weaken seen from slots :
  live_within seen slots -> live_within (seen ++ [from]) slots.
Proof.
  unfold live_within. intros Hl. eapply Forall_impl; [|exact Hl].
  intros a Ha Hlive. apply in_or_app. left. now apply Ha.
Qed.

Lemma refresh_live_within seen from now slots :
  live_within (seen ++ [from]) slots ->
  live_within (seen ++ [from]) (refresh_first_match slots from now).
Proof.
  unfold live_within.
  induction slots as [|a rest IH]; simpl; intros Hl; [constructor|].
  inversion Hl as [|? ? Ha Hrest]; subst.
  destruct (uip_ipaddr_cmp (route a) from) eqn:Hcmp.
  - constructor; [|exact Hrest]. simpl. intros _.
    apply uip_ipaddr_cmp_true in Hcmp. rewrite Hcmp.
    apply in_or_app. right. now left.
  - constructor; [exact Ha|now apply IH].
Qed.

Lemma claim_live_within seen from now slots :
  live_within (seen ++ [from]) slots ->
  live_within (seen ++ [from]) (claim_first_free slots from now).
Proof.
  unfold live_within.
  induction slots as [|a rest IH]; simpl; intros Hl; [constructor|].
  inversion Hl as [|? ? Ha Hrest]; subst.
  destruct (last_seen a =? -1).
  - constructor; [|exact Hrest]. simpl. intros _.
    apply in_or_app. right. now left.
  - constructor; [exact Ha|now apply IH].
Qed.

Lemma observe_live_within seen from now slots :
  live_within seen slots ->
  live_within (seen ++ [from]) (observe slots from now).
Proof.
  intros Hl. unfold observe.
  now apply claim_live_within, refresh_live_within, live_within_weaken.
Qed.

Lemma refresh_absent slots from now :
  Forall (fun a => route a <> from) slots ->
  refresh_first_match slots from now = slots.
Proof.
  induction slots as [|a rest IH]; simpl; intros Hab; [reflexivity|].
  inversion Hab as [|? ? Ha Hrest]; subst.
  apply uip_ipaddr_cmp_false in Ha. rewrite Ha. f_equal. now apply IH.
Qed.

Lemma claim_full slots from now :
  all_live slots -> claim_first_free slots from now = slots.
Proof.
  unfold all_live.
  induction slots as [|a rest IH]; simpl; intros Hl; [reflexivity|].
  inversion Hl as [|? ? Ha Hrest]; subst.
  destruct (Z.eqb_spec (last_seen a) (-1)); [contradiction|].
  f_equal. now apply IH.
Qed.

(** A packet from an address that no slot holds changes nothing in a
    full table. *)
Lemma observe_full_absent slots from now :
  all_live slots ->
  Forall (fun a => route a <> from) slots ->
  observe slots from now = slots.
Proof.
  intros Hl Hab. unfold observe.
  rewrite refresh_absent by assumption. now apply claim_full.
Qed.

Lemma packets_received_snoc pkts p st :
  packets_received (pkts ++ [p]) st
  = plexi_rpl_packet_received (fst p) (snd p) (packets_received pkts st).
Proof. unfold packets_received. now rewrite fold_left_app. Qed.

(** After [k] packets with valid clocks at most [N - k] slots are free,
    the table still has its [N] slots and its live slots hold heard
    addresses only. *)
Lemma packets_received_fill pkts :
  forall st,
    all_free (actual_routes st) ->
    Forall clock_valid (map snd pkts) ->
    let slots := actual_routes (packets_received pkts st) in
    List.length slots = List.length (actual_routes st)
    /\ (count_free slots
        <= List.length (actual_routes st) - List.length pkts)%nat
    /\ live_within (map fst pkts) slots.
Proof.
  induction pkts as [|p pkts IH] using rev_ind; intros st Hfree Hclk.
  - simpl. repeat split.
    + pose proof (count_free_le_length (actual_routes st)). lia.
    + unfold live_within. eapply Forall_impl; [|exact Hfree].
      simpl. intros a Ha Hlive. contradiction.
  - rewrite map_app in Hclk. apply Forall_app in Hclk.
    destruct Hclk as [Hclk Hp]. inversion Hp as [|? ? Hpc _]; subst.
    destruct (clock_valid_to_long _ Hpc) as [_ Hnow].
    destruct (IH st Hfree Hclk) as (Hlen & Hcnt & Hlive).
    cbv zeta. rewrite packets_received_snoc, packet_received_slots.
    repeat split.
    + now rewrite observe_length.
    + pose proof (observe_count_free
                    (actual_routes (packets_received pkts st))
                    (fst p) (to_long (snd p)) Hnow).
      rewrite length_app. simpl. lia.
    + rewrite map_app. simpl. now apply observe_live_within.
Qed.

(** ** The sweep *)

Lemma stale_test clock a :
  PLEXI_RPL_UPDATE_INTERVAL <= clock <= 4294967295 ->
  -1 <= last_seen a <= INT32_MAX ->
  (to_ulong (last_seen a) <? to_ulong (clock - PLEXI_RPL_UPDATE_INTERVAL))
  = true <-> stale clock a.
Proof.
  unfold stale, PLEXI_RPL_UPDATE_INTERVAL, INT32_MAX. intros Hc Ha.
  rewrite (to_ulong_small (clock - 30)) by lia.
  destruct (Z.eq_dec (last_seen a) (-1)) as [E|E].
  - rewrite E, to_ulong_minus_one. rewrite Z.ltb_lt. lia.
  - rewrite to_ulong_small by lia. rewrite Z.ltb_lt. lia.
Qed.

Lemma sweep_none_stale clock slots :
  PLEXI_RPL_UPDATE_INTERVAL <= clock <= 4294967295 ->
  table_wf slots ->
  Forall (fun b => ~ stale clock b) slots ->
  sweep_slots slots clock = slots.
Proof.
  intros Hc. unfold table_wf.
  induction slots as [|a rest IH]; simpl; intros Hwf Hns; [reflexivity|].
  inversion Hwf as [|? ? Ha Hwf']; subst.
  inversion Hns as [|? ? Hna Hns']; subst.
  destruct (to_ulong (last_seen a) <? to_ulong (clock - _)) eqn:Ht.
  - apply stale_test in Ht; [contradiction|assumption|assumption].
  - f_equal. now apply IH.
Qed.

Lemma sweep_first_stale clock pre a post :
  PLEXI_RPL_UPDATE_INTERVAL <= clock <= 4294967295 ->
  table_wf (pre ++ a :: post) ->
  Forall (fun b => ~ stale clock b) pre ->
  stale clock a ->
  sweep_slots (pre ++ a :: post) clock = pre ++ free_slot a :: post.
Proof.
  intros Hc. unfold table_wf.
  induction pre as [|b pre IH]; simpl; intros Hwf Hns Hst.
  - inversion Hwf as [|? ? Ha _]; subst.
    apply (stale_test clock a Hc Ha) in Hst. now rewrite Hst.
  - inversion Hwf as [|? ? Hb Hwf']; subst.
    inversion Hns as [|? ? Hnb Hns']; subst.
    destruct (to_ulong (last_seen b) <? to_ulong (clock - _)) eqn:Ht.
    + apply stale_test in Ht; [contradiction|assumption|assumption].
    + f_equal. now apply IH.
Qed.

(** ** The delayed notification *)

Section NotifierLemmas.
Context `{plexi_interface}.

(** A route change that arrives before the timer is due re-arms it and
    delivers nothing. *)
Lemma host_route_event_rearms h ev fire_at :
  rpl_changed_timer (plexi h) = ARMED fire_at ->
  fst ev < fire_at ->
  is_route_change (snd ev) = true ->
  host_route_event h ev
  = {| plexi := set_rpl_changed_timer
                  (ARMED (fst ev + debounce_interval)) (plexi h);
       delivered := delivered h |}.
Proof.
  intros Harm Hlt Hch. unfold host_route_event, host_advance.
  rewrite Harm.
  destruct (Z.leb_spec fire_at (fst ev)) as [Hle|_]; [lia|].
  unfold rpl_changed_callback. now rewrite Hch.
Qed.

Lemma host_route_event_arms h ev :
  rpl_changed_timer (plexi h) = IDLE ->
  is_route_change (snd ev) = true ->
  host_route_event h ev
  = {| plexi := set_rpl_changed_timer
                  (ARMED (fst ev + debounce_interval)) (plexi h);
       delivered := delivered h |}.
Proof.
  intros Hidle Hch. unfold host_route_event, host_advance.
  rewrite Hidle. unfold rpl_changed_callback. now rewrite Hch.
Qed.

Lemma host_advance_due h fire_at until :
  rpl_changed_timer (plexi h) = ARMED fire_at ->
  fire_at <= until ->
  host_advance until h
  = {| plexi := set_new_notification 1
                  (set_rpl_changed_timer IDLE (plexi h));
       delivered := delivered h ++ [fire_at] |}.
Proof.
  intros Harm Hdue. unfold host_advance. rewrite Harm.
  destruct (Z.leb_spec fire_at until); [reflexivity|lia].
Qed.

Lemma host_advance_early h fire_at until :
  rpl_changed_timer (plexi h) = ARMED fire_at ->
  until < fire_at ->
  host_advance until h = h.
Proof.
  intros Harm Hearly. unfold host_advance. rewrite Harm.
  destruct (Z.leb_spec fire_at until); [lia|reflexivity].
Qed.

Lemma host_advance_idle h until :
  rpl_changed_timer (plexi h) = IDLE -> host_advance until h = h.
Proof. intros Hidle. unfold host_advance. now rewrite Hidle. Qed.

Lemma host_run_cons ev rest h :
  host_run (ev :: rest) h = host_run rest (host_route_event h ev).
Proof. reflexivity. Qed.

(** Through the rest of a burst the timer is pushed to the last event
    and nothing is delivered. *)
Lemma host_run_burst rest :
  forall t h,
    rpl_changed_timer (plexi h) = ARMED (t + debounce_interval) ->
    burst_after debounce_interval t rest ->
    rpl_changed_timer (plexi (host_run rest h))
    = ARMED (last_event_time t rest + debounce_interval)
    /\ delivered (host_run rest h) = delivered h.
Proof.
  induction rest as [|ev rest IH]; intros t h Harm Hburst.
  - simpl. now split.
  - destruct Hburst as (Hle & Hgap & Hch & Hrest).
    rewrite host_run_cons.
    rewrite (host_route_event_rearms h ev _ Harm ltac:(lia) Hch).
    simpl last_event_time.
    set (h1 := {| plexi := set_rpl_changed_timer
                             (ARMED (fst ev + debounce_interval)) (plexi h);
                  delivered := delivered h |}).
    destruct (IH (fst ev) h1 eq_refl Hrest) as [Ht Hd].
    split; [exact Ht|exact Hd].
Qed.

End NotifierLemmas.

(* ================================================================== *)
(** * The statements of the resource *)

Section HandlerTheorems.
Context `{plexi_interface}.

(** C1. Chunk completeness: for a fixed view of the routing stack and a
    fixed table, a request that accepts JSON and a buffer capacity of at
    least one byte, calling the GET handler from the fresh-response
    sentinel -1 and then again with each offset it returned ends with
    the sentinel after at most as many calls as the body has bytes;
    every response is a success, and the chunks put together are the
    response body, which is also what a single pass with a capacity
    that holds the whole body leaves in the buffer. *)
Theorem chunks_concatenate_to_body view st request preferred_size fuel :
  accepts_json request = true ->
  1 <= preferred_size ->
  Z.of_nat (List.length (dag_json view (actual_routes st))) + preferred_size
    <= INT32_MAX ->
  (List.length (dag_json view (actual_routes st)) <= fuel)%nat ->
  exists responses,
    get_exchanges fuel view st request preferred_size (-1) = Some responses
    /\ Forall is_json_chunk responses
    /\ List.concat (map payload responses)
       = dag_json view (actual_routes st)
    /\ forall unbounded,
         Z.of_nat (List.length (dag_json view (actual_routes st)))
           <= unbounded ->
         buffer (dag_pass view (actual_routes st) unbounded 0)
         = List.concat (map payload responses).
Proof.
  intros Hacc Hb Hmax Hfuel.
  pose proof (dag_json_nonempty view (actual_routes st)) as Hne.
  destruct (get_exchanges_from view request preferred_size Hacc Hb
              fuel st (-1)) as (responses & Hrun & Hok & Hcat).
  - rewrite start_offset_fresh. lia.
  - exact Hmax.
  - rewrite start_offset_fresh. lia.
  - rewrite start_offset_fresh in Hcat. simpl skipn in Hcat.
    exists responses. repeat split; try assumption.
    intros unbounded Hbig. rewrite Hcat.
    destruct (dag_pass_walked view (actual_routes st) unbounded 0
                ltac:(lia)) as (Hbuf & _ & _).
    rewrite Hbuf. unfold window. simpl skipn.
    apply firstn_all2. lia.
Qed.

(** C4, as the handler has it: an accepted call starts at 0 when it is
    given the sentinel -1 or a notification is pending, and at the
    offset it is given otherwise; it returns -1 when the whole body ends
    within the start plus [preferred_size], and the start plus
    [preferred_size] otherwise.  So a fresh call or a call after a
    notification returns -1 or [preferred_size], and a continuation
    call returns -1 or its own offset advanced by [preferred_size]. *)
Theorem returned_offset_by_start
    view st request response preferred_size offset :
  accepts_json request = true ->
  0 <= preferred_size ->
  (new_notification st <> 0 \/ offset = -1 ->
   preferred_size <= INT32_MAX ->
   offset_after (plexi_get_dag_handler view st request response
                                       preferred_size offset)
   = (if Z.of_nat (List.length (dag_json view (actual_routes st)))
         <=? preferred_size
      then -1 else preferred_size))
  /\ (new_notification st = 0 ->
      0 <= offset ->
      offset + preferred_size <= INT32_MAX ->
      offset_after (plexi_get_dag_handler view st request response
                                          preferred_size offset)
      = (if Z.of_nat (List.length (dag_json view (actual_routes st)))
            <=? offset + preferred_size
         then -1 else offset + preferred_size)).
Proof.
  unfold INT32_MAX. intros Hacc Hb. split.
  - intros Hfresh Hmax.
    rewrite handler_accepted by assumption. unfold offset_after. simpl snd.
    assert (Hstart : start_offset st offset = 0).
    { destruct Hfresh as [Hflag|Hoff].
      - now apply start_offset_notified.
      - subst offset. apply start_offset_fresh. }
    rewrite Hstart. rewrite Z.add_0_l.
    rewrite (to_int32_small preferred_size) by lia.
    now rewrite to_uint_small by lia.
  - intros Hflag Hoff Hmax.
    rewrite handler_accepted by assumption. unfold offset_after. simpl snd.
    rewrite (start_offset_continuation st offset Hflag Hoff).
    rewrite (to_int32_small (offset + preferred_size)) by lia.
    now rewrite to_uint_small by lia.
Qed.

(** C9. Logical-length totality: whatever the capacity and the
    resumption offset, a pass of the handler ends with [strpos] equal to
    the length of the whole response body, every route with a live next
    hop included. *)
Theorem strpos_is_total_length view slots preferred_size offset :
  0 <= preferred_size ->
  strpos (dag_pass view slots preferred_size offset)
  = Z.of_nat (List.length (dag_json view slots)).
Proof.
  intros Hb.
  now destruct (dag_pass_walked view slots preferred_size offset Hb)
    as (_ & _ & Hstr).
Qed.

(** C8, as the handler has it: when a pass of an accepted call places
    no byte in the buffer, the response is the 4.02 status with the
    diagnostic [BlockOutOfScope], not a success; for a non-negative
    start offset that happens exactly when the capacity is zero or the
    start offset is at or past the end of the body, and the two cases
    get the same response. *)
Theorem empty_buffer_reports_block_out_of_scope
    view st request response preferred_size offset :
  accepts_json request = true ->
  0 <= preferred_size ->
  0 <= start_offset st offset ->
  let c := dag_pass view (actual_routes st) preferred_size
                    (start_offset st offset) in
  (bufpos c = 0 <->
   preferred_size = 0
   \/ Z.of_nat (List.length (dag_json view (actual_routes st)))
      <= start_offset st offset)
  /\ (bufpos c = 0 ->
      response_of (plexi_get_dag_handler view st request response
                                         preferred_size offset)
      = coap_set_payload (bytes_of BlockOutOfScope) 15
          (coap_set_status_code BAD_OPTION_4_02 response)).
Proof.
  intros Hacc Hb Hs c.
  destruct (dag_pass_walked view (actual_routes st) preferred_size
              (start_offset st offset) Hb) as (Hbuf & Hpos & _).
  fold c in Hbuf, Hpos.
  assert (Hlen : bufpos c
                 = Z.min preferred_size
                     (Z.max 0 (Z.of_nat (List.length
                                 (dag_json view (actual_routes st)))
                               - start_offset st offset))).
  { rewrite Hpos, Hbuf. now apply window_length. }
  split; [lia|].
  intros Hzero. rewrite handler_accepted by assumption.
  unfold response_of. simpl fst. simpl snd.
  rewrite <- Hbuf, <- Hpos, Hzero. reflexivity.
Qed.

(** C3, as the handler has it: a request whose Accept option is present
    and is not JSON gets the 4.06 status; the offset, the table and the
    timer are left as they were and nothing else of the response is
    touched, but the notification flag is cleared. *)
Theorem not_acceptable_result view st request response preferred_size offset v :
  accept_option request = Some v ->
  0 <= v <= UINT16_MAX ->
  v <> APPLICATION_JSON ->
  plexi_get_dag_handler view st request response preferred_size offset
  = (set_new_notification 0 st,
     coap_set_status_code NOT_ACCEPTABLE_4_06 response,
     offset).
Proof.
  unfold UINT16_MAX. intros Hopt Hv Hjson.
  unfold plexi_get_dag_handler, accepts_json, header_accept.
  rewrite Hopt.
  destruct (Z.eqb_spec v (to_uint (-1))) as [E|_].
  - rewrite E in Hv. change (to_uint (-1)) with 4294967295 in Hv. lia.
  - destruct (Z.eqb_spec v APPLICATION_JSON); [contradiction|reflexivity].
Qed.

(** C10. Every call of the GET handler leaves [new_notification] at 0;
    and once the event handler has set the flag, an accepted call with
    a capacity of at least one byte does not go on from the offset it
    is given: whatever that offset is, it clears the flag, answers with
    the first [preferred_size] bytes of the body as a JSON success, and
    returns -1 when the body ends within them and [preferred_size]
    otherwise, just as a call with the sentinel does. *)
Theorem flag_cleared_and_notification_restarts
    view st request response preferred_size offset :
  new_notification
    (state_after (plexi_get_dag_handler view st request response
                                        preferred_size offset)) = 0
  /\ (accepts_json request = true ->
      1 <= preferred_size <= INT32_MAX ->
      let notified := fst (plexi_dag_event_handler st) in
      new_notification notified = 1
      /\ plexi_get_dag_handler view notified request response_init
                               preferred_size offset
         = (set_new_notification 0 st,
            json_chunk (firstn (Z.to_nat preferred_size)
                          (dag_json view (actual_routes st))),
            if Z.of_nat (List.length (dag_json view (actual_routes st)))
               <=? preferred_size
            then -1 else preferred_size)
      /\ plexi_get_dag_handler view notified request response_init
                               preferred_size offset
         = plexi_get_dag_handler view notified request response_init
                                 preferred_size (-1)).
Proof.
  split.
  - unfold plexi_get_dag_handler, state_after.
    destruct (accepts_json request); reflexivity.
  - intros Hacc Hb. cbv zeta. unfold INT32_MAX in Hb.
    set (notified := fst (plexi_dag_event_handler st)).
    assert (Hstart : forall o, start_offset notified o = 0).
    { intros o. apply start_offset_notified. simpl. discriminate. }
    assert (Hres : forall o,
               plexi_get_dag_handler view notified request response_init
                                     preferred_size o
               = (set_new_notification 0 st,
                  json_chunk (firstn (Z.to_nat preferred_size)
                                (dag_json view (actual_routes st))),
                  if Z.of_nat (List.length
                                 (dag_json view (actual_routes st)))
                     <=? preferred_size
                  then -1 else preferred_size)).
    { intros o.
      rewrite handler_accepted by (assumption || lia).
      rewrite (Hstart o). rewrite Z.add_0_l.
      change (actual_routes notified) with (actual_routes st).
      pose proof (dag_json_nonempty view (actual_routes st)) as Hne.
      set (chunk := window 0 preferred_size
                      (dag_json view (actual_routes st))).
      assert (Hlen : Z.of_nat (List.length chunk)
                     = Z.min preferred_size
                         (Z.of_nat (List.length
                                      (dag_json view (actual_routes st))))).
      { unfold chunk. rewrite window_length; lia. }
      replace (Z.of_nat (List.length chunk) >? 0) with true
        by (symmetry; apply Z.gtb_lt; lia).
      rewrite json_chunk_eq.
      rewrite (to_int32_small preferred_size) by lia.
      rewrite to_uint_small by lia.
      reflexivity. }
    split; [reflexivity|]. split.
    + apply Hres.
    + now rewrite (Hres offset), (Hres (-1)).
Qed.

End HandlerTheorems.

(** ** The table *)

(** Two packets from the same source, heard while two slots are free and
    neither holds the address, leave two entries for it: the first call
    claims a slot, the second refreshes it and claims another. *)
Lemma same_source_twice_claims_twice addr t1 t2 a0 a1 rest :
  last_seen a0 = -1 -> last_seen a1 = -1 ->
  Forall (fun a => route a <> addr) (a0 :: a1 :: rest) ->
  t1 <> -1 -> t2 <> -1 ->
  observe (observe (a0 :: a1 :: rest) addr t1) addr t2
  = {| route := addr; last_seen := t2 |}
    :: {| route := addr; last_seen := t2 |} :: rest.
Proof.
  intros H0 H1 Hab Ht1 Ht2.
  unfold observe at 2. rewrite refresh_absent by assumption.
  simpl claim_first_free. rewrite H0. simpl.
  unfold observe. simpl refresh_first_match.
  replace (uip_ipaddr_cmp addr addr) with true
    by (symmetry; now apply uip_ipaddr_cmp_true).
  simpl claim_first_free.
  destruct (Z.eqb_spec t2 (-1)); [contradiction|].
  now rewrite H1.
Qed.

(** C2, at the failing input: on a table of two free slots, two packets
    from the same source address leave two entries for that address. *)
Theorem same_source_twice_two_entries :
  entries_of addr_A
    (actual_routes
       (packets_received [(addr_A, 3); (addr_A, 4)] two_free_slots))
  = [ {| route := addr_A; last_seen := 4 |};
      {| route := addr_A; last_seen := 4 |} ].
Proof. reflexivity. Qed.

(** C7. Bounded table with silent drop: from a table of [N] free slots,
    after [N] packets and one more from an address that differs from
    all of theirs, with clocks that the time field can hold, the table
    still has [N] slots and all of them are entries, no slot holds the
    last address, and the last call left the state as it was. *)
Theorem bounded_table_silent_drop st pkts last_addr last_clock :
  all_free (actual_routes st) ->
  List.length pkts = List.length (actual_routes st) ->
  NoDup (map fst pkts ++ [last_addr]) ->
  Forall clock_valid (map snd pkts) ->
  let full := packets_received pkts st in
  let final := plexi_rpl_packet_received last_addr last_clock full in
  List.length (filter slot_live (actual_routes final))
  = List.length (actual_routes st)
  /\ List.length (actual_routes final) = List.length (actual_routes st)
  /\ Forall (fun a => route a <> last_addr) (actual_routes final)
  /\ entries_of last_addr (actual_routes final) = []
  /\ final = full.
Proof.
  intros Hfree Hlen Hnodup Hclk full final.
  destruct (packets_received_fill pkts st Hfree Hclk)
    as (Hsize & Hcnt & Hwithin).
  fold full in Hsize, Hcnt, Hwithin.
  assert (Hlive : all_live (actual_routes full)).
  { apply count_free_zero_all_live. lia. }
  assert (Habsent : Forall (fun a => route a <> last_addr)
                           (actual_routes full)).
  { pose proof (NoDup_remove_2 _ _ _ Hnodup) as Hnotin.
    rewrite app_nil_r in Hnotin.
    unfold live_within, all_live in *.
    rewrite Forall_forall in *. intros a Ha E.
    apply Hnotin. rewrite <- E. apply Hwithin; [exact Ha|now apply Hlive]. }
  assert (Hsame : final = full).
  { unfold final, plexi_rpl_packet_received. cbv zeta.
    change (0 =? 0) with true. cbv iota.
    fold (observe (actual_routes full) last_addr (to_long last_clock)).
    rewrite observe_full_absent by assumption.
    apply set_actual_routes_same. }
  rewrite Hsame. repeat split.
  - rewrite <- Hsize. unfold all_live in Hlive.
    clear - Hlive. induction Hlive as [|a l Ha _ IH]; simpl; [reflexivity|].
    unfold slot_live at 1.
    destruct (Z.eqb_spec (last_seen a) (-1)); [contradiction|].
    simpl. now rewrite IH.
  - exact Hsize.
  - exact Habsent.
  - unfold entries_of. clear - Habsent.
    induction Habsent as [|a l Ha _ IH]; simpl; [reflexivity|].
    apply uip_ipaddr_cmp_false in Ha. now rewrite Ha.
Qed.

(** Once the clock has reached the update interval, one turn of the
    sweep frees the first slot whose age exceeds the interval and leaves
    every other slot as it was, so a stale entry behind it waits for a
    later turn; when no slot is that old the turn changes nothing. *)
Theorem sweep_frees_first_stale_only clock st :
  PLEXI_RPL_UPDATE_INTERVAL <= clock <= 4294967295 ->
  table_wf (actual_routes st) ->
  (Forall (fun b => ~ stale clock b) (actual_routes st) ->
   blabla_tick clock st = st)
  /\ (forall pre a post,
        actual_routes st = pre ++ a :: post ->
        Forall (fun b => ~ stale clock b) pre ->
        stale clock a ->
        actual_routes (blabla_tick clock st) = pre ++ free_slot a :: post).
Proof.
  intros Hc Hwf. split.
  - intros Hns. unfold blabla_tick.
    rewrite sweep_none_stale by assumption. apply set_actual_routes_same.
  - intros pre a post Hsplit Hns Hst. unfold blabla_tick. simpl.
    rewrite Hsplit in Hwf |- *. now apply sweep_first_stale.
Qed.

(** While the clock is below the update interval the subtraction wraps
    around in [unsigned long], and a turn of the sweep frees the first
    live slot whatever its age. *)
Lemma sweep_before_first_interval clock a rest :
  0 <= clock < PLEXI_RPL_UPDATE_INTERVAL ->
  0 <= last_seen a <= clock ->
  sweep_slots (a :: rest) clock = free_slot a :: rest.
Proof.
  unfold PLEXI_RPL_UPDATE_INTERVAL. intros Hc Ha. simpl.
  rewrite to_ulong_small by lia.
  rewrite to_ulong_wraps_below_zero
    by (unfold PLEXI_RPL_UPDATE_INTERVAL; lia).
  unfold PLEXI_RPL_UPDATE_INTERVAL.
  destruct (Z.ltb_spec (last_seen a) (clock - 30 + 4294967296));
    [reflexivity|lia].
Qed.

(** C5, at the failing input: a neighbour heard at second 5 is an
    entry of age 5 at second 10, within the update interval of 30, and
    one turn of the sweep at second 10 frees it. *)
Theorem sweep_frees_fresh_entry_before_interval :
  let st := plexi_rpl_packet_received addr_A 5 two_free_slots in
  entries_of addr_A (actual_routes st)
  = [ {| route := addr_A; last_seen := 5 |} ]
  /\ 10 - 5 <= PLEXI_RPL_UPDATE_INTERVAL
  /\ ~ stale 10 {| route := addr_A; last_seen := 5 |}
  /\ entries_of addr_A (actual_routes (blabla_tick 10 st)) = [].
Proof.
  cbv zeta. split; [reflexivity|]. split; [|split].
  - unfold PLEXI_RPL_UPDATE_INTERVAL. lia.
  - unfold stale, PLEXI_RPL_UPDATE_INTERVAL. simpl. lia.
  - reflexivity.
Qed.

(* ================================================================== *)
(** ** The notifier *)

Section NotifierTheorems.
Context `{plexi_interface}.

(** C6. Debounce coalescing: for a burst of route additions and
    removals, each less than the debounce interval after the one before
    it, that meets an idle timer, the subscribers are notified once, at
    one interval after the last event of the burst: nothing is delivered
    before that time, one notification by then, and none after. *)
Theorem burst_delivers_one_notification h t1 ev1 rest :
  rpl_changed_timer (plexi h) = IDLE ->
  is_route_change ev1 = true ->
  burst_after debounce_interval t1 rest ->
  let fire_at := last_event_time t1 rest + debounce_interval in
  let h' := host_run ((t1, ev1) :: rest) h in
  forall until,
    delivered (host_advance until h')
    = delivered h ++ (if fire_at <=? until then [fire_at] else [])
    /\ (fire_at <= until ->
        new_notification (plexi (host_advance until h')) = 1
        /\ forall later,
             delivered (host_advance later (host_advance until h'))
             = delivered h ++ [fire_at]).
Proof.
  intros Hidle Hch Hburst fire_at h' until.
  unfold h'. rewrite host_run_cons.
  rewrite (host_route_event_arms h (t1, ev1) Hidle Hch).
  set (h1 := {| plexi := _; delivered := delivered h |}).
  destruct (host_run_burst rest t1 h1 eq_refl Hburst) as [Ht Hd].
  fold fire_at in Ht. simpl delivered in Hd.
  destruct (Z.leb_spec fire_at until) as [Hdue|Hearly].
  - rewrite (host_advance_due _ _ _ Ht Hdue). simpl. rewrite Hd.
    split; [reflexivity|].
    intros _. split; [reflexivity|].
    intros later. reflexivity.
  - rewrite (host_advance_early _ _ _ Ht Hearly).
    rewrite Hd, app_nil_r. split; [reflexivity|]. lia.
Qed.

End NotifierTheorems.

(* ================================================================== *)
(** * The statements at concrete inputs *)

Ltac evaluated :=
  first [ reflexivity
        | lia
        | vm_compute; first [ reflexivity | discriminate | lia ] ].

(** The body of the demo node is 55 bytes long; sixteen-byte chunks
    retrieve it in four calls. *)
Lemma chunks_concatenate_to_body_witness :
  accepts_json request_json = true
  /\ 1 <= 16
  /\ Z.of_nat (List.length (dag_json demo_view (actual_routes (demo_state 1))))
     + 16 <= INT32_MAX
  /\ (List.length (dag_json demo_view (actual_routes (demo_state 1)))
      <= 55)%nat
  /\ exists responses,
       get_exchanges 55 demo_view (demo_state 1) request_json 16 (-1)
       = Some responses
       /\ Forall is_json_chunk responses
       /\ List.concat (map payload responses)
          = dag_json demo_view (actual_routes (demo_state 1))
       /\ forall unbounded,
            Z.of_nat (List.length
                        (dag_json demo_view (actual_routes (demo_state 1))))
              <= unbounded ->
            buffer (dag_pass demo_view (actual_routes (demo_state 1))
                             unbounded 0)
            = List.concat (map payload responses).
Proof.
  assert (H1 : accepts_json request_json = true) by evaluated.
  assert (H2 : 1 <= 16) by evaluated.
  assert (H3 : Z.of_nat (List.length
                 (dag_json demo_view (actual_routes (demo_state 1))))
               + 16 <= INT32_MAX) by evaluated.
  assert (H4 : (List.length
                  (dag_json demo_view (actual_routes (demo_state 1)))
                <= 55)%nat) by evaluated.
  repeat (split; [assumption|]).
  exact (chunks_concatenate_to_body demo_view (demo_state 1) request_json
           16 55 H1 H2 H3 H4).
Defined.

Lemma returned_offset_by_start_witness :
  accepts_json request_any = true
  /\ 0 <= 16
  /\ (new_notification (demo_state 1) <> 0 \/ 32 = -1)
  /\ 16 <= INT32_MAX
  /\ new_notification (demo_state 0) = 0
  /\ 0 <= 32
  /\ 32 + 16 <= INT32_MAX
  /\ offset_after (plexi_get_dag_handler demo_view (demo_state 1)
                     request_any response_init 16 32) = 16
  /\ offset_after (plexi_get_dag_handler demo_view (demo_state 0)
                     request_any response_init 16 32) = 48.
Proof.
  assert (H1 : accepts_json request_any = true) by evaluated.
  assert (H2 : 0 <= 16) by evaluated.
  assert (H3 : new_notification (demo_state 1) <> 0 \/ 32 = -1)
    by (left; simpl; discriminate).
  assert (H4 : 16 <= INT32_MAX) by (unfold INT32_MAX; lia).
  assert (H5 : new_notification (demo_state 0) = 0) by reflexivity.
  assert (H6 : 0 <= 32) by lia.
  assert (H7 : 32 + 16 <= INT32_MAX) by (unfold INT32_MAX; lia).
  repeat (split; [assumption|]).
  split.
  - rewrite (proj1 (returned_offset_by_start demo_view (demo_state 1)
                      request_any response_init 16 32 H1 H2) H3 H4).
    reflexivity.
  - rewrite (proj2 (returned_offset_by_start demo_view (demo_state 0)
                      request_any response_init 16 32 H1 H2) H5 H6 H7).
    reflexivity.
Defined.

Lemma strpos_is_total_length_witness :
  0 <= 16
  /\ strpos (dag_pass demo_view (actual_routes (demo_state 0)) 16 32)
     = Z.of_nat (List.length
                   (dag_json demo_view (actual_routes (demo_state 0)))).
Proof.
  assert (H1 : 0 <= 16) by evaluated.
  split; [assumption|].
  exact (strpos_is_total_length demo_view (actual_routes (demo_state 0))
           16 32 H1).
Defined.

Lemma empty_buffer_reports_block_out_of_scope_witness :
  accepts_json request_any = true
  /\ 0 <= 0
  /\ 0 <= start_offset (demo_state 0) 0
  /\ bufpos (dag_pass demo_view (actual_routes (demo_state 0)) 0
                      (start_offset (demo_state 0) 0)) = 0
  /\ response_of (plexi_get_dag_handler demo_view (demo_state 0)
                    request_any response_init 0 0)
     = block_out_of_scope.
Proof.
  assert (H1 : accepts_json request_any = true) by evaluated.
  assert (H2 : 0 <= 0) by evaluated.
  assert (H3 : 0 <= start_offset (demo_state 0) 0) by evaluated.
  assert (H4 : bufpos (dag_pass demo_view (actual_routes (demo_state 0)) 0
                               (start_offset (demo_state 0) 0)) = 0)
    by evaluated.
  repeat (split; [assumption|]).
  rewrite (proj2 (empty_buffer_reports_block_out_of_scope demo_view
                    (demo_state 0) request_any response_init 0 0 H1 H2 H3)
             H4).
  reflexivity.
Defined.

Lemma not_acceptable_result_witness :
  accept_option request_xml = Some 41
  /\ 0 <= 41 <= UINT16_MAX
  /\ 41 <> APPLICATION_JSON
  /\ plexi_get_dag_handler demo_view (demo_state 0) request_xml
                           response_init 16 32
     = (set_new_notification 0 (demo_state 0),
        coap_set_status_code NOT_ACCEPTABLE_4_06 response_init,
        32).
Proof.
  assert (H1 : accept_option request_xml = Some 41) by evaluated.
  assert (H2 : 0 <= 41 <= UINT16_MAX) by (unfold UINT16_MAX; lia).
  assert (H3 : 41 <> APPLICATION_JSON) by (unfold APPLICATION_JSON; lia).
  repeat (split; [assumption|]).
  exact (not_acceptable_result demo_view (demo_state 0) request_xml
           response_init 16 32 41 H1 H2 H3).
Defined.

Lemma flag_cleared_and_notification_restarts_witness :
  accepts_json request_json = true
  /\ 1 <= 16 <= INT32_MAX
  /\ new_notification
       (state_after (plexi_get_dag_handler demo_view (demo_state 1)
                       request_json response_init 16 32)) = 0
  /\ plexi_get_dag_handler demo_view
       (fst (plexi_dag_event_handler (demo_state 0)))
       request_json response_init 16 32
     = (demo_state 0,
        json_chunk (firstn 16 (dag_json demo_view
                                 (actual_routes (demo_state 0)))),
        16).
Proof.
  assert (H1 : accepts_json request_json = true) by evaluated.
  assert (H2 : 1 <= 16 <= INT32_MAX) by (unfold INT32_MAX; lia).
  repeat (split; [assumption|]).
  split.
  - exact (proj1 (flag_cleared_and_notification_restarts demo_view
                    (demo_state 1) request_json response_init 16 32)).
  - rewrite (proj1 (proj2 (proj2 (flag_cleared_and_notification_restarts
                                    demo_view (demo_state 0) request_json
                                    response_init 16 32) H1 H2))).
    reflexivity.
Defined.

(** The scenario of the resource's description: two slots, packets from
    A, B and C. *)
Lemma bounded_table_silent_drop_witness :
  all_free (actual_routes two_free_slots)
  /\ List.length [(addr_A, 0); (addr_B, 5)]
     = List.length (actual_routes two_free_slots)
  /\ NoDup (map fst [(addr_A, 0); (addr_B, 5)] ++ [addr_C])
  /\ Forall clock_valid (map snd [(addr_A, 0); (addr_B, 5)])
  /\ actual_routes
       (plexi_rpl_packet_received addr_C 6
          (packets_received [(addr_A, 0); (addr_B, 5)] two_free_slots))
     = [ {| route := addr_A; last_seen := 0 |};
         {| route := addr_B; last_seen := 5 |} ].
Proof.
  assert (H1 : all_free (actual_routes two_free_slots))
    by (repeat constructor).
  assert (H2 : List.length [(addr_A, 0); (addr_B, 5)]
               = List.length (actual_routes two_free_slots)) by evaluated.
  assert (H3 : NoDup (map fst [(addr_A, 0); (addr_B, 5)] ++ [addr_C])).
  { simpl. repeat constructor; simpl; intuition discriminate. }
  assert (H4 : Forall clock_valid (map snd [(addr_A, 0); (addr_B, 5)]))
    by (repeat (apply Forall_cons;
                  [unfold clock_valid, INT32_MAX; simpl; lia|]);
        apply Forall_nil).
  repeat (split; [assumption|]).
  destruct (bounded_table_silent_drop two_free_slots
              [(addr_A, 0); (addr_B, 5)] addr_C 6 H1 H2 H3 H4)
    as (_ & _ & _ & _ & Hsame).
  rewrite Hsame. reflexivity.
Defined.

Lemma sweep_frees_first_stale_only_witness :
  PLEXI_RPL_UPDATE_INTERVAL <= 31 <= 4294967295
  /\ table_wf (actual_routes
                 (packets_received [(addr_A, 0); (addr_B, 5)] two_free_slots))
  /\ stale 31 {| route := addr_A; last_seen := 0 |}
  /\ actual_routes
       (blabla_tick 31
          (packets_received [(addr_A, 0); (addr_B, 5)] two_free_slots))
     = [ {| route := addr_A; last_seen := -1 |};
         {| route := addr_B; last_seen := 5 |} ].
Proof.
  assert (H1 : PLEXI_RPL_UPDATE_INTERVAL <= 31 <= 4294967295)
    by (unfold PLEXI_RPL_UPDATE_INTERVAL; lia).
  assert (H4 : actual_routes
                 (packets_received [(addr_A, 0); (addr_B, 5)] two_free_slots)
               = [] ++ {| route := addr_A; last_seen := 0 |}
                    :: [ {| route := addr_B; last_seen := 5 |} ])
    by (vm_compute; reflexivity).
  assert (H2 : table_wf (actual_routes
                 (packets_received [(addr_A, 0); (addr_B, 5)]
                                   two_free_slots)))
    by (rewrite H4; unfold table_wf, INT32_MAX;
        repeat (apply Forall_cons; [simpl; lia|]); apply Forall_nil).
  assert (H3 : stale 31 {| route := addr_A; last_seen := 0 |})
    by (unfold stale, PLEXI_RPL_UPDATE_INTERVAL; simpl; lia).
  repeat (split; [assumption|]).
  exact (proj2 (sweep_frees_first_stale_only 31
                  (packets_received [(addr_A, 0); (addr_B, 5)] two_free_slots)
                  H1 H2)
           [] {| route := addr_A; last_seen := 0 |}
           [ {| route := addr_B; last_seen := 5 |} ]
           H4 (Forall_nil _) H3).
Defined.

(** Three route changes at ticks 0, 100 and 3000 with 128 ticks per
    second: one notification, at tick 3000 + 30 * 128. *)
Lemma burst_delivers_one_notification_witness :
  rpl_changed_timer (plexi host_idle) = IDLE
  /\ is_route_change UIP_DS6_NOTIFICATION_ROUTE_ADD = true
  /\ burst_after debounce_interval 0
       [(100, UIP_DS6_NOTIFICATION_ROUTE_RM);
        (3000, UIP_DS6_NOTIFICATION_ROUTE_ADD)]
  /\ delivered
       (host_advance 100000
          (host_run [(0, UIP_DS6_NOTIFICATION_ROUTE_ADD);
                     (100, UIP_DS6_NOTIFICATION_ROUTE_RM);
                     (3000, UIP_DS6_NOTIFICATION_ROUTE_ADD)] host_idle))
     = [6840].
Proof.
  assert (H1 : rpl_changed_timer (plexi host_idle) = IDLE) by evaluated.
  assert (H2 : is_route_change UIP_DS6_NOTIFICATION_ROUTE_ADD = true)
    by evaluated.
  assert (H3 : burst_after debounce_interval 0
                 [(100, UIP_DS6_NOTIFICATION_ROUTE_RM);
                  (3000, UIP_DS6_NOTIFICATION_ROUTE_ADD)]).
  { vm_compute. repeat split; discriminate. }
  repeat (split; [assumption|]).
  rewrite (proj1 (burst_delivers_one_notification host_idle 0
                    UIP_DS6_NOTIFICATION_ROUTE_ADD
                    [(100, UIP_DS6_NOTIFICATION_ROUTE_RM);
                     (3000, UIP_DS6_NOTIFICATION_ROUTE_ADD)]
                    H1 H2 H3 100000)).
  reflexivity.
Defined.

(* ================================================================== *)
(** * Where the resource differs from its description *)

(** C3: a request for XML that meets a set notification flag clears the
    flag, so the call does change the notification state. *)
Lemma not_acceptable_clears_flag :
  accepts_json request_xml = false
  /\ new_notification (demo_state 1) = 1
  /\ new_notification
       (state_after (plexi_get_dag_handler demo_view (demo_state 1)
                       request_xml response_init 16 32))
     <> new_notification (demo_state 1).
Proof.
  split; [reflexivity|]. split; [reflexivity|].
  vm_compute. discriminate.
Qed.

(** C4: with a notification pending, a call given offset 32 and a
    capacity of 16 on the body of 55 bytes returns 16: the body does not
    end within 32 + 16, yet the offset that comes back is not 32
    advanced by 16; and a fresh call, given -1, returns 16 and not
    -1 + 16. *)
Lemma returned_offset_not_from_given_offset :
  new_notification (demo_state 1) = 1
  /\ Z.of_nat (List.length
                 (dag_json demo_view (actual_routes (demo_state 1)))) = 55
  /\ offset_after (plexi_get_dag_handler demo_view (demo_state 1)
                     request_any response_init 16 32) = 16
  /\ 16 <> 32 + 16
  /\ offset_after (plexi_get_dag_handler demo_view (demo_state 0)
                     request_any response_init 16 (-1)) = 16
  /\ 16 <> -1 + 16.
Proof.
  split; [reflexivity|]. split; [reflexivity|]. split; [reflexivity|].
  split; [lia|]. split; [reflexivity|lia].
Qed.

(** C8: a call whose buffer holds no byte while the whole body is still
    to come gets the very response of a call whose offset is past the
    end of the body; there is no condition of its own for it. *)
Lemma no_progress_same_as_out_of_scope :
  bufpos (dag_pass demo_view (actual_routes (demo_state 0)) 0 0) = 0
  /\ strpos (dag_pass demo_view (actual_routes (demo_state 0)) 0 0) = 55
  /\ strpos (dag_pass demo_view (actual_routes (demo_state 0)) 16 1000) = 55
  /\ response_of (plexi_get_dag_handler demo_view (demo_state 0)
                    request_any response_init 0 0)
     = response_of (plexi_get_dag_handler demo_view (demo_state 0)
                      request_any response_init 16 1000)
  /\ response_of (plexi_get_dag_handler demo_view (demo_state 0)
                    request_any response_init 0 0)
     = block_out_of_scope.
Proof. repeat split; reflexivity. Qed.

(* ================================================================== *)
(** * Further properties of the table *)

Lemma sweep_length slots clock :
  List.length (sweep_slots slots clock) = List.length slots.
Proof.
  induction slots as [|a rest IH]; simpl; [reflexivity|].
  destruct (to_ulong (last_seen a) <? _); simpl; congruence.
Qed.

(** No operation of the module changes the number of slots: the table
    is as long after [plexi_rpl_init], after a packet, after a turn of
    the sweep and after a call of the GET handler as it was before. *)
Theorem table_capacity_invariant `{plexi_interface}
    st from clock view request response preferred_size offset :
  List.length (actual_routes (plexi_rpl_init st))
  = List.length (actual_routes st)
  /\ List.length (actual_routes (plexi_rpl_packet_received from clock st))
     = List.length (actual_routes st)
  /\ List.length (actual_routes (blabla_tick clock st))
     = List.length (actual_routes st)
  /\ actual_routes
       (state_after (plexi_get_dag_handler view st request response
                                           preferred_size offset))
     = actual_routes st.
Proof.
  split; [|split; [|split]].
  - simpl. apply length_map.
  - rewrite packet_received_slots. apply observe_length.
  - simpl. apply sweep_length.
  - unfold plexi_get_dag_handler, state_after.
    destruct (accepts_json request); reflexivity.
Qed.

Lemma refresh_wf slots from now :
  -1 <= now <= INT32_MAX ->
  table_wf slots -> table_wf (refresh_first_match slots from now).
Proof.
  intros Hnow. unfold table_wf.
  induction slots as [|a rest IH]; simpl; intros Hwf; [constructor|].
  inversion Hwf as [|? ? Ha Hrest]; subst.
  destruct (uip_ipaddr_cmp (route a) from).
  - constructor; [exact Hnow|exact Hrest].
  - constructor; [exact Ha|now apply IH].
Qed.

Lemma claim_wf slots from now :
  -1 <= now <= INT32_MAX ->
  table_wf slots -> table_wf (claim_first_free slots from now).
Proof.
  intros Hnow. unfold table_wf.
  induction slots as [|a rest IH]; simpl; intros Hwf; [constructor|].
  inversion Hwf as [|? ? Ha Hrest]; subst.
  destruct (last_seen a =? -1).
  - constructor; [exact Hnow|exact Hrest].
  - constructor; [exact Ha|now apply IH].
Qed.

Lemma sweep_wf slots clock :
  table_wf slots -> table_wf (sweep_slots slots clock).
Proof.
  unfold table_wf.
  induction slots as [|a rest IH]; simpl; intros Hwf; [constructor|].
  inversion Hwf as [|? ? Ha Hrest]; subst.
  destruct (to_ulong (last_seen a) <? _).
  - constructor; [simpl; unfold INT32_MAX; lia|exact Hrest].
  - constructor; [exact Ha|now apply IH].
Qed.

(** The time field of every slot is the free mark or a time that the
    clock gave: [plexi_rpl_init] makes it so, a packet heard at a clock
    that the field can hold keeps it so, and so does a turn of the
    sweep at any clock. *)
Theorem table_wf_invariant st from clock sweep_at :
  table_wf (actual_routes (plexi_rpl_init st))
  /\ (clock_valid clock ->
      table_wf (actual_routes st) ->
      table_wf (actual_routes (plexi_rpl_packet_received from clock st)))
  /\ (table_wf (actual_routes st) ->
      table_wf (actual_routes (blabla_tick sweep_at st))).
Proof.
  split; [|split].
  - simpl. unfold table_wf. apply Forall_map, Forall_forall.
    intros a _. simpl. unfold INT32_MAX. lia.
  - intros Hc Hwf. rewrite packet_received_slots. unfold observe.
    destruct (clock_valid_to_long clock Hc) as [Heq _]. rewrite Heq.
    unfold clock_valid in Hc.
    apply claim_wf; [lia|]. apply refresh_wf; [lia|exact Hwf].
  - intros Hwf. simpl. now apply sweep_wf.
Qed.

Lemma refresh_in slots from now :
  Exists (fun a => route a = from) slots ->
  In {| route := from; last_seen := now |}
     (refresh_first_match slots from now).
Proof.
  induction slots as [|a rest IH]; simpl; intros Hex.
  - inversion Hex.
  - destruct (uip_ipaddr_cmp (route a) from) eqn:Hcmp.
    + apply uip_ipaddr_cmp_true in Hcmp. rewrite Hcmp. now left.
    + right. apply IH. inversion Hex as [? ? Ha|? ? Hr]; subst.
      * apply uip_ipaddr_cmp_false in Hcmp. contradiction.
      * exact Hr.
Qed.

Lemma claim_keeps_live slots from now a :
  In a slots -> last_seen a <> -1 ->
  In a (claim_first_free slots from now).
Proof.
  induction slots as [|b rest IH]; simpl; intros Hin Hlive; [contradiction|].
  destruct (Z.eqb_spec (last_seen b) (-1)) as [Hb|Hb].
  - destruct Hin as [E|Hin]; [subst; contradiction|now right].
  - destruct Hin as [E|Hin]; [now left|right; now apply IH].
Qed.

Lemma claim_in slots from now :
  Exists (fun a => last_seen a = -1) slots ->
  In {| route := from; last_seen := now |}
     (claim_first_free slots from now).
Proof.
  induction slots as [|a rest IH]; simpl; intros Hex.
  - inversion Hex.
  - destruct (Z.eqb_spec (last_seen a) (-1)) as [Ha|Ha].
    + now left.
    + right. apply IH. inversion Hex; subst; [contradiction|assumption].
Qed.

Lemma holds_or_absent (from : uip_ipaddr_t) slots :
  Exists (fun a => route a = from) slots
  \/ Forall (fun a => route a <> from) slots.
Proof.
  induction slots as [|a rest IH].
  - right. constructor.
  - destruct (uip_ipaddr_eq_dec (route a) from) as [E|E].
    + left. now constructor.
    + destruct IH as [IH|IH]; [left; now apply Exists_cons_tl|].
      right. now constructor.
Qed.

Lemma observe_leaves_entry from now slots :
  now <> -1 ->
  Exists (fun a => route a = from \/ last_seen a = -1) slots ->
  In {| route := from; last_seen := now |} (observe slots from now).
Proof.
  intros Hnow Hex. unfold observe.
  destruct (holds_or_absent from slots) as [Hheld|Habsent].
  - apply claim_keeps_live; [now apply refresh_in|exact Hnow].
  - rewrite refresh_absent by assumption. apply claim_in.
    apply Exists_exists in Hex. destruct Hex as (a & Hin & [Hr|Hf]).
    + rewrite Forall_forall in Habsent. now apply Habsent in Hin.
    + apply Exists_exists. now exists a.
Qed.

(** A packet heard at a clock that the time field can hold leaves an
    entry for its source with that time, whenever some slot already
    holds the address (live or freed) or some slot is free. *)
Theorem packet_refreshes_or_claims from clock st :
  clock_valid clock ->
  Exists (fun a => route a = from \/ last_seen a = -1) (actual_routes st) ->
  In {| route := from; last_seen := clock |}
     (actual_routes (plexi_rpl_packet_received from clock st)).
Proof.
  intros Hc Hex. rewrite packet_received_slots.
  destruct (clock_valid_to_long clock Hc) as [Heq Hnow]. rewrite Heq in *.
  now apply observe_leaves_entry.
Qed.

Lemma refresh_keeps_others slots from now i a :
  nth_error slots i = Some a -> route a <> from ->
  nth_error (refresh_first_match slots from now) i = Some a.
Proof.
  revert i. induction slots as [|b rest IH]; intros i Hnth Hr.
  - destruct i; discriminate.
  - simpl. destruct (uip_ipaddr_cmp (route b) from) eqn:Hcmp.
    + destruct i as [|i]; simpl in *; [|exact Hnth].
      injection Hnth as ->. apply uip_ipaddr_cmp_true in Hcmp.
      contradiction.
    + destruct i as [|i]; simpl in *; [exact Hnth|now apply IH].
Qed.

Lemma claim_keeps_live_at slots from now i a :
  nth_error slots i = Some a -> last_seen a <> -1 ->
  nth_error (claim_first_free slots from now) i = Some a.
Proof.
  revert i. induction slots as [|b rest IH]; intros i Hnth Hlive.
  - destruct i; discriminate.
  - simpl. destruct (Z.eqb_spec (last_seen b) (-1)) as [Hb|Hb].
    + destruct i as [|i]; simpl in *; [|exact Hnth].
      injection Hnth as ->. contradiction.
    + destruct i as [|i]; simpl in *; [exact Hnth|now apply IH].
Qed.

(** A packet never evicts: an entry of another address stays in its
    slot with its time, whatever the clock and however full the table
    is. *)
Theorem packet_keeps_other_entries from clock st i a :
  nth_error (actual_routes st) i = Some a ->
  last_seen a <> -1 ->
  route a <> from ->
  nth_error (actual_routes (plexi_rpl_packet_received from clock st)) i
  = Some a.
Proof.
  intros Hnth Hlive Hr. rewrite packet_received_slots. unfold observe.
  apply claim_keeps_live_at; [|exact Hlive].
  now apply refresh_keeps_others.
Qed.

(** A packet from an address that no slot holds, heard while no slot is
    free, leaves the whole state as it was, whatever the clock. *)
Theorem full_table_drops_unknown from clock st :
  all_live (actual_routes st) ->
  Forall (fun a => route a <> from) (actual_routes st) ->
  plexi_rpl_packet_received from clock st = st.
Proof.
  intros Hlive Habsent. unfold plexi_rpl_packet_received. cbv zeta.
  change (0 =? 0) with true. cbv iota.
  fold (observe (actual_routes st) from (to_long clock)).
  rewrite observe_full_absent by assumption.
  apply set_actual_routes_same.
Qed.

(** A turn of the sweep, at any clock, changes at most one slot, and
    all it does to that slot is to mark it free: the address stays, and
    so do the flag and the timer. *)
Theorem sweep_changes_at_most_one_slot clock st :
  (blabla_tick clock st = st
   \/ exists pre a post,
        actual_routes st = pre ++ a :: post
        /\ actual_routes (blabla_tick clock st) = pre ++ free_slot a :: post)
  /\ map route (actual_routes (blabla_tick clock st))
     = map route (actual_routes st)
  /\ new_notification (blabla_tick clock st) = new_notification st
  /\ rpl_changed_timer (blabla_tick clock st) = rpl_changed_timer st.
Proof.
  split; [|split; [|split; reflexivity]].
  - assert (Hs : sweep_slots (actual_routes st) clock = actual_routes st
                 \/ exists pre a post,
                      actual_routes st = pre ++ a :: post
                      /\ sweep_slots (actual_routes st) clock
                         = pre ++ free_slot a :: post).
    { induction (actual_routes st) as [|b rest IH]; simpl.
      - now left.
      - destruct (to_ulong (last_seen b) <? _).
        + right. exists [], b, rest. now split.
        + destruct IH as [IH|(pre & a & post & Hsplit & Hres)].
          * left. now rewrite IH.
          * right. exists (b :: pre), a, post. simpl.
            now rewrite Hsplit at 1; rewrite Hres. }
    destruct Hs as [Hs|Hs].
    + left. unfold blabla_tick. rewrite Hs. apply set_actual_routes_same.
    + right. exact Hs.
  - simpl. induction (actual_routes st) as [|b rest IH]; simpl;
      [reflexivity|].
    destruct (to_ulong (last_seen b) <? _); simpl; [reflexivity|].
    now rewrite IH.
Qed.

(** While the clock is below the update interval the subtraction of the
    sweep wraps around in [unsigned long]: a turn skips the free slots
    and frees the first entry, whatever its age. *)
Theorem sweep_before_interval_frees_first_entry clock st pre a post :
  0 <= clock < PLEXI_RPL_UPDATE_INTERVAL ->
  actual_routes st = pre ++ a :: post ->
  all_free pre ->
  0 <= last_seen a <= INT32_MAX ->
  actual_routes (blabla_tick clock st) = pre ++ free_slot a :: post.
Proof.
  unfold PLEXI_RPL_UPDATE_INTERVAL, INT32_MAX, all_free.
  intros Hc Hsplit Hpre Ha. simpl. rewrite Hsplit. clear Hsplit.
  induction Hpre as [|b pre Hb _ IH]; simpl.
  - rewrite to_ulong_small by lia.
    rewrite to_ulong_wraps_below_zero
      by (unfold PLEXI_RPL_UPDATE_INTERVAL; lia).
    unfold PLEXI_RPL_UPDATE_INTERVAL.
    destruct (Z.ltb_spec (last_seen a) (clock - 30 + 4294967296));
      [reflexivity|lia].
  - rewrite Hb, to_ulong_minus_one.
    rewrite to_ulong_wraps_below_zero
      by (unfold PLEXI_RPL_UPDATE_INTERVAL; lia).
    unfold PLEXI_RPL_UPDATE_INTERVAL.
    destruct (Z.ltb_spec 4294967295 (clock - 30 + 4294967296)); [lia|].
    now rewrite IH.
Qed.

Lemma sweep_keeps_fresh slots clock a :
  sweep_clock clock ->
  -1 <= last_seen a <= INT32_MAX ->
  In a slots -> ~ stale clock a ->
  In a (sweep_slots slots clock).
Proof.
  intros Hc Hwf. induction slots as [|b rest IH]; simpl; intros Hin Hns;
    [contradiction|].
  destruct (to_ulong (last_seen b) <? _) eqn:Ht.
  - destruct Hin as [E|Hin]; [|now right].
    subst b. apply (stale_test clock a Hc Hwf) in Ht. contradiction.
  - destruct Hin as [E|Hin]; [now left|right; now apply IH].
Qed.

Lemma blabla_run_slots clocks st :
  actual_routes (blabla_run clocks st)
  = fold_left sweep_slots clocks (actual_routes st).
Proof.
  revert st. induction clocks as [|c clocks IH]; intros st; [reflexivity|].
  simpl. now rewrite IH.
Qed.

(** A neighbour that was heard is kept while it is fresh: after a packet
    at clock [heard], however many turns of the sweep run at clocks that
    have reached the update interval and are at most the interval past
    [heard], the entry of the source is still in the table. *)
Theorem heard_entry_survives_sweeps from heard clocks st :
  clock_valid heard ->
  Exists (fun a => route a = from \/ last_seen a = -1) (actual_routes st) ->
  Forall (fun c => sweep_clock c
                   /\ c - heard <= PLEXI_RPL_UPDATE_INTERVAL) clocks ->
  In {| route := from; last_seen := heard |}
     (actual_routes
        (blabla_run clocks (plexi_rpl_packet_received from heard st))).
Proof.
  intros Hh Hex Hcs.
  assert (Hin : In {| route := from; last_seen := heard |}
                   (actual_routes
                      (plexi_rpl_packet_received from heard st))).
  { rewrite packet_received_slots.
    destruct (clock_valid_to_long heard Hh) as [Heq Hnow]. rewrite Heq in *.
    now apply observe_leaves_entry. }
  rewrite blabla_run_slots.
  revert Hin. generalize (actual_routes
                            (plexi_rpl_packet_received from heard st)).
  induction Hcs as [|c clocks [Hc Hage] _ IH]; intros slots Hin;
    [exact Hin|].
  simpl. apply IH. apply sweep_keeps_fresh; try assumption.
  - simpl. unfold clock_valid in Hh. lia.
  - unfold stale. simpl. lia.
Qed.

Lemma sweep_live_from slots clock a :
  In a (sweep_slots slots clock) -> last_seen a <> -1 -> In a slots.
Proof.
  induction slots as [|b rest IH]; simpl; intros Hin Hlive; [contradiction|].
  destruct (to_ulong (last_seen b) <? _).
  - destruct Hin as [E|Hin]; [|now right].
    subst a. simpl in Hlive. contradiction.
  - destruct Hin as [E|Hin]; [now left|right; now apply IH].
Qed.

Lemma sweep_run_live_from clocks :
  forall slots a,
    In a (fold_left sweep_slots clocks slots) -> last_seen a <> -1 ->
    In a slots.
Proof.
  induction clocks as [|c clocks IH]; intros slots a Hin Hlive;
    [exact Hin|].
  simpl in Hin. apply (sweep_live_from slots c a); [|exact Hlive].
  apply IH; assumption.
Qed.

Lemma live_count_cons a rest :
  live_count (a :: rest)
  = ((if (last_seen a =? -1)%Z then 0 else 1) + live_count rest)%nat.
Proof.
  unfold live_count. simpl. unfold slot_live at 1.
  destruct (last_seen a =? -1); reflexivity.
Qed.

Lemma live_count_le_length slots :
  (live_count slots <= List.length slots)%nat.
Proof. unfold live_count. apply filter_length_le. Qed.

Lemma live_count_pos slots a :
  In a slots -> last_seen a <> -1 -> (1 <= live_count slots)%nat.
Proof.
  induction slots as [|b rest IH]; intros Hin Hlive; [contradiction|].
  rewrite live_count_cons. destruct Hin as [E|Hin].
  - subst b. destruct (Z.eqb_spec (last_seen a) (-1)); [contradiction|lia].
  - specialize (IH Hin Hlive). lia.
Qed.

(** A turn that meets a stale entry takes one entry away. *)
Lemma sweep_frees_one slots clock :
  sweep_clock clock ->
  table_wf slots ->
  Exists (stale clock) slots ->
  (live_count (sweep_slots slots clock) + 1 = live_count slots)%nat.
Proof.
  intros Hc. unfold table_wf.
  induction slots as [|a rest IH]; intros Hwf Hex; [inversion Hex|].
  inversion Hwf as [|? ? Ha Hrest]; subst. simpl.
  destruct (to_ulong (last_seen a) <? _) eqn:Ht.
  - apply (stale_test clock a Hc Ha) in Ht. destruct Ht as [Hlive _].
    rewrite !live_count_cons. simpl.
    destruct (Z.eqb_spec (last_seen a) (-1)); [contradiction|lia].
  - rewrite !live_count_cons.
    assert (Hex' : Exists (stale clock) rest).
    { inversion Hex as [? ? Hst|? ? Hr]; subst; [|exact Hr].
      apply (stale_test clock a Hc Ha) in Hst. congruence. }
    specialize (IH Hrest Hex'). lia.
Qed.

Lemma sweep_run_wf clocks :
  forall slots, table_wf slots -> table_wf (fold_left sweep_slots clocks slots).
Proof.
  induction clocks as [|c clocks IH]; intros slots Hwf; [exact Hwf|].
  simpl. apply IH. now apply sweep_wf.
Qed.

(** As long as an entry that was stale at [since] is left, every turn
    took an entry away. *)
Lemma sweep_run_counts since clocks :
  forall slots,
    table_wf slots ->
    Forall (fun c => sweep_clock c /\ since <= c) clocks ->
    Exists (stale since) (fold_left sweep_slots clocks slots) ->
    (live_count (fold_left sweep_slots clocks slots) + List.length clocks
     = live_count slots)%nat.
Proof.
  induction clocks as [|c clocks IH]; intros slots Hwf Hcs Hex.
  - simpl. lia.
  - inversion Hcs as [|? ? [Hc Hsince] Hcs']; subst. simpl in *.
    specialize (IH (sweep_slots slots c) (sweep_wf _ _ Hwf) Hcs' Hex).
    assert (Hstale : Exists (stale c) slots).
    { apply Exists_exists in Hex. destruct Hex as (a & Hin & Hlive & Hage).
      apply Exists_exists. exists a. split.
      - apply (sweep_live_from slots c a); [|exact Hlive].
        apply (sweep_run_live_from clocks); assumption.
      - split; [exact Hlive|lia]. }
    pose proof (sweep_frees_one slots c Hc Hwf Hstale). lia.
Qed.

(** Every stale entry goes within as many turns as the table has
    slots: after that many turns of the sweep, at clocks from [since] on
    that have reached the update interval and with no packet in
    between, no entry that was stale at [since] is left. *)
Theorem stale_entries_gone_after_capacity_turns since clocks st :
  table_wf (actual_routes st) ->
  Forall (fun c => sweep_clock c /\ since <= c) clocks ->
  (List.length (actual_routes st) <= List.length clocks)%nat ->
  Forall (fun a => ~ stale since a) (actual_routes (blabla_run clocks st)).
Proof.
  intros Hwf Hcs Hlen. rewrite blabla_run_slots.
  apply Forall_forall. intros a Hin Hst.
  assert (Hex : Exists (stale since)
                       (fold_left sweep_slots clocks (actual_routes st))).
  { apply Exists_exists. now exists a. }
  pose proof (sweep_run_counts since clocks _ Hwf Hcs Hex) as Hcount.
  pose proof (live_count_le_length (actual_routes st)) as Hle.
  destruct Hst as [Hlive _].
  pose proof (live_count_pos _ a Hin Hlive). lia.
Qed.

(* ================================================================== *)
(** * Further properties of the GET handler *)

Section HandlerProperties.
Context `{plexi_interface}.

Lemma walked_unique offset bufsize done c c' :
  walked offset bufsize done c -> walked offset bufsize done c' -> c = c'.
Proof.
  intros (Hb & Hp & Hs) (Hb' & Hp' & Hs').
  destruct c, c'; simpl in *. subst. reflexivity.
Qed.

Lemma set_new_notification_same st :
  new_notification st = 0 -> set_new_notification 0 st = st.
Proof. destruct st; simpl; intros ->; reflexivity. Qed.

(** A route whose next hop has no live slot does not show: the handler
    answers as if the route were not in the route table. *)
Theorem excluded_route_is_invisible
    view st request response preferred_size offset rs1 r rs2 :
  routes view = rs1 ++ r :: rs2 ->
  nexthop_is_actual (actual_routes st) r = false ->
  0 <= preferred_size ->
  plexi_get_dag_handler view st request response preferred_size offset
  = plexi_get_dag_handler (with_routes (rs1 ++ rs2) view) st request response
                          preferred_size offset.
Proof.
  intros Hroutes Hout Hb.
  assert (Hbody : dag_json view (actual_routes st)
                  = dag_json (with_routes (rs1 ++ rs2) view)
                             (actual_routes st)).
  { unfold dag_json, with_routes. simpl. rewrite Hroutes.
    rewrite !filter_app. simpl. now rewrite Hout. }
  assert (Hpass : forall o,
             dag_pass view (actual_routes st) preferred_size o
             = dag_pass (with_routes (rs1 ++ rs2) view) (actual_routes st)
                        preferred_size o).
  { intros o. apply (walked_unique o preferred_size
                       (dag_json view (actual_routes st))).
    - now apply dag_pass_walked.
    - rewrite Hbody. now apply dag_pass_walked. }
  unfold plexi_get_dag_handler. now rewrite Hpass.
Qed.

(** Any block can be asked for on its own: with no notification
    pending, an accepted call at an offset inside the body answers with
    the bytes of the body from that offset on, as many as the capacity
    allows and at least one, and leaves the state as it was. *)
Theorem block_at_offset view st request preferred_size offset :
  accepts_json request = true ->
  1 <= preferred_size ->
  new_notification st = 0 ->
  0 <= offset < Z.of_nat (List.length (dag_json view (actual_routes st))) ->
  offset + preferred_size <= INT32_MAX ->
  let r := plexi_get_dag_handler view st request response_init
                                 preferred_size offset in
  state_after r = st
  /\ response_of r
     = json_chunk (firstn (Z.to_nat preferred_size)
                     (skipn (Z.to_nat offset)
                        (dag_json view (actual_routes st))))
  /\ Z.of_nat (List.length (payload (response_of r)))
     = Z.min preferred_size
         (Z.of_nat (List.length (dag_json view (actual_routes st))) - offset).
Proof.
  intros Hacc Hb Hflag Ho Hmax r. subst r.
  rewrite handler_accepted by (assumption || lia).
  rewrite (start_offset_continuation st offset Hflag) by lia.
  unfold state_after, response_of. simpl fst. simpl snd.
  set (chunk := window offset preferred_size
                  (dag_json view (actual_routes st))).
  assert (Hlen : Z.of_nat (List.length chunk)
                 = Z.min preferred_size
                     (Z.of_nat (List.length
                                  (dag_json view (actual_routes st)))
                      - offset)).
  { unfold chunk. rewrite window_length; lia. }
  replace (Z.of_nat (List.length chunk) >? 0) with true
    by (symmetry; apply Z.gtb_lt; lia).
  rewrite json_chunk_eq. split; [|split].
  - now apply set_new_notification_same.
  - reflexivity.
  - exact Hlen.
Qed.

(** An offset at or past the end of the body is answered with the 4.02
    status and the diagnostic, and the offset goes back to the
    sentinel. *)
Theorem offset_past_end view st request preferred_size offset :
  accepts_json request = true ->
  0 <= preferred_size ->
  new_notification st = 0 ->
  Z.of_nat (List.length (dag_json view (actual_routes st))) <= offset ->
  offset + preferred_size <= INT32_MAX ->
  plexi_get_dag_handler view st request response_init preferred_size offset
  = (st, block_out_of_scope, -1).
Proof.
  unfold INT32_MAX. intros Hacc Hb Hflag Ho Hmax.
  rewrite handler_accepted by assumption.
  rewrite (start_offset_continuation st offset Hflag) by lia.
  set (chunk := window offset preferred_size
                  (dag_json view (actual_routes st))).
  assert (Hlen : Z.of_nat (List.length chunk) = 0).
  { unfold chunk. rewrite window_length; lia. }
  rewrite Hlen. change (0 >? 0) with false. cbv iota.
  rewrite block_out_of_scope_eq.
  rewrite (to_int32_small (offset + preferred_size)) by lia.
  rewrite to_uint_small by lia.
  destruct (Z.leb_spec (Z.of_nat (List.length
                                    (dag_json view (actual_routes st))))
                       (offset + preferred_size)); [|lia].
  now rewrite set_new_notification_same.
Qed.

Lemma zero_capacity_stuck view request :
  accepts_json request = true ->
  forall (fuel : nat) (st : plexi_state) (offset : Z),
    start_offset st offset = 0 ->
    get_exchanges fuel view st request 0 offset = None.
Proof.
  intros Hacc. induction fuel as [|fuel IH]; intros st offset Hstart;
    [reflexivity|].
  simpl get_exchanges.
  rewrite (handler_accepted view st request response_init 0 offset Hacc
             ltac:(lia)).
  rewrite Hstart.
  pose proof (dag_json_nonempty view (actual_routes st)) as Hne.
  rewrite (to_int32_small (0 + 0)) by lia.
  rewrite to_uint_small by lia.
  destruct (Z.leb_spec (Z.of_nat (List.length
                                    (dag_json view (actual_routes st))))
                       (0 + 0)); [lia|].
  change (0 + 0 =? -1) with false. cbv iota.
  rewrite IH; [reflexivity|].
  apply start_offset_continuation; [reflexivity|lia].
Qed.

(** With a capacity of zero the retrieval never ends: each call returns
    the offset it started from, so no number of calls reaches the
    sentinel. *)
Theorem zero_capacity_never_completes view st request fuel :
  accepts_json request = true ->
  get_exchanges fuel view st request 0 (-1) = None.
Proof.
  intros Hacc. apply zero_capacity_stuck; [exact Hacc|].
  apply start_offset_fresh.
Qed.

Lemma exchange_count_from view request preferred_size :
  accepts_json request = true ->
  1 <= preferred_size ->
  forall (fuel : nat) (st : plexi_state) (offset : Z),
    0 <= start_offset st offset
      < Z.of_nat (List.length (dag_json view (actual_routes st))) ->
    Z.of_nat (List.length (dag_json view (actual_routes st)))
      + preferred_size <= INT32_MAX ->
    Z.of_nat (List.length (dag_json view (actual_routes st)))
      - start_offset st offset <= Z.of_nat fuel ->
    exists responses,
      get_exchanges fuel view st request preferred_size offset
      = Some responses
      /\ Z.of_nat (List.length responses)
         = (Z.of_nat (List.length (dag_json view (actual_routes st)))
            - start_offset st offset + preferred_size - 1) / preferred_size
      /\ Forall (fun r => 1 <= Z.of_nat (List.length (payload r))
                          <= preferred_size) responses.
Proof.
  intros Hacc Hb. unfold INT32_MAX.
  induction fuel as [|fuel IH]; intros st offset Hs Hmax Hfuel;
    set (body := dag_json view (actual_routes st)) in *;
    set (start := start_offset st offset) in *.
  - lia.
  - simpl get_exchanges.
    rewrite (handler_accepted view st request response_init preferred_size
               offset Hacc ltac:(lia)).
    fold body. fold start.
    set (chunk := window start preferred_size body).
    assert (Hlen : Z.of_nat (List.length chunk)
                   = Z.min preferred_size (Z.of_nat (List.length body) - start)).
    { unfold chunk. rewrite window_length; lia. }
    replace (Z.of_nat (List.length chunk) >? 0) with true
      by (symmetry; apply Z.gtb_lt; lia).
    rewrite json_chunk_eq.
    rewrite (to_int32_small (start + preferred_size)) by lia.
    rewrite (to_uint_small (start + preferred_size)) by lia.
    destruct (Z.leb_spec (Z.of_nat (List.length body))
                         (start + preferred_size)) as [Hend|Hmore].
    + exists [json_chunk chunk]. split; [reflexivity|]. split.
      * change (Z.of_nat (List.length [json_chunk chunk])) with 1.
        apply Z.div_unique with (r := Z.of_nat (List.length body) - start - 1);
          lia.
      * constructor; [|constructor].
        change (payload (json_chunk chunk)) with chunk. lia.
    + destruct (Z.eqb_spec (start + preferred_size) (-1)) as [E|_]; [lia|].
      assert (Hstart' : start_offset (set_new_notification 0 st)
                          (start + preferred_size)
                        = start + preferred_size).
      { apply start_offset_continuation; [reflexivity|lia]. }
      destruct (IH (set_new_notification 0 st) (start + preferred_size))
        as (rest & Hrest & Hcount & Hsize).
      * rewrite Hstart'. simpl actual_routes. fold body. lia.
      * simpl actual_routes. fold body. lia.
      * rewrite Hstart'. simpl actual_routes. fold body. lia.
      * rewrite Hrest. exists (json_chunk chunk :: rest).
        split; [reflexivity|]. split.
        -- rewrite Hstart' in Hcount. simpl actual_routes in Hcount.
           fold body in Hcount.
           replace (Z.of_nat (List.length body) - start + preferred_size - 1)
             with (Z.of_nat (List.length body) - (start + preferred_size)
                   + preferred_size - 1 + 1 * preferred_size) by lia.
           rewrite Z.div_add by lia. rewrite <- Hcount.
           change (List.length (json_chunk chunk :: rest))
             with (S (List.length rest)). lia.
        -- constructor; [|exact Hsize].
           change (payload (json_chunk chunk)) with chunk. lia.
Qed.

(** The retrieval takes as many calls as the body has chunks: from the
    sentinel, with a capacity of at least one byte, the number of
    responses is the length of the body divided by the capacity,
    rounded up, and every payload has between one byte and the
    capacity. *)
Theorem exchange_count view st request preferred_size fuel :
  accepts_json request = true ->
  1 <= preferred_size ->
  Z.of_nat (List.length (dag_json view (actual_routes st))) + preferred_size
    <= INT32_MAX ->
  (List.length (dag_json view (actual_routes st)) <= fuel)%nat ->
  exists responses,
    get_exchanges fuel view st request preferred_size (-1) = Some responses
    /\ Z.of_nat (List.length responses)
       = (Z.of_nat (List.length (dag_json view (actual_routes st)))
          + preferred_size - 1) / preferred_size
    /\ Forall (fun r => 1 <= Z.of_nat (List.length (payload r))
                        <= preferred_size) responses.
Proof.
  intros Hacc Hb Hmax Hfuel.
  pose proof (dag_json_nonempty view (actual_routes st)) as Hne.
  destruct (exchange_count_from view request preferred_size Hacc Hb
              fuel st (-1)) as (responses & Hrun & Hcount & Hsize).
  - rewrite start_offset_fresh. lia.
  - exact Hmax.
  - rewrite start_offset_fresh. lia.
  - rewrite start_offset_fresh, Z.sub_0_r in Hcount.
    exists responses. split; [exact Hrun|]. split; assumption.
Qed.

(** Changes of the default route never notify: from an idle timer, any
    run of signals that are not route additions or removals leaves the
    host as it was, however long one waits afterwards. *)
Theorem default_route_events_ignored evs h until :
  rpl_changed_timer (plexi h) = IDLE ->
  Forall (fun ev => is_route_change (snd ev) = false) evs ->
  host_advance until (host_run evs h) = h.
Proof.
  intros Hidle Hevs.
  assert (Hrun : host_run evs h = h).
  { induction Hevs as [|ev evs Hev _ IH]; [reflexivity|].
    rewrite host_run_cons.
    assert (Hstep : host_route_event h ev = h).
    { unfold host_route_event, rpl_changed_callback.
      rewrite (host_advance_idle h (fst ev) Hidle), Hev.
      now destruct h. }
    now rewrite Hstep. }
  rewrite Hrun. now apply host_advance_idle.
Qed.

End HandlerProperties.

(* ================================================================== *)
(** * The further properties at concrete inputs *)

Ltac all_slots tac :=
  repeat (apply Forall_cons; [tac|]); apply Forall_nil.

(** Two slots after a packet from A at 0 and one from B at 5. *)
Lemma slots_after_A_and_B :
  actual_routes (packets_received [(addr_A, 0); (addr_B, 5)] two_free_slots)
  = [ {| route := addr_A; last_seen := 0 |};
      {| route := addr_B; last_seen := 5 |} ].
Proof. vm_compute. reflexivity. Qed.

Lemma table_wf_invariant_witness :
  clock_valid 5
  /\ table_wf (actual_routes two_free_slots)
  /\ table_wf (actual_routes
                 (plexi_rpl_packet_received addr_A 5 two_free_slots))
  /\ table_wf (actual_routes (blabla_tick 40 two_free_slots)).
Proof.
  assert (H1 : clock_valid 5) by (unfold clock_valid, INT32_MAX; lia).
  assert (H2 : table_wf (actual_routes two_free_slots))
    by exact (proj1 (table_wf_invariant (plexi_state_bss 2) addr_A 5 40)).
  repeat (split; [assumption|]).
  split.
  - exact (proj1 (proj2 (table_wf_invariant two_free_slots addr_A 5 40))
             H1 H2).
  - exact (proj2 (proj2 (table_wf_invariant two_free_slots addr_A 5 40)) H2).
Defined.

Lemma packet_refreshes_or_claims_witness :
  clock_valid 5
  /\ Exists (fun a => route a = addr_A \/ last_seen a = -1)
            (actual_routes two_free_slots)
  /\ In {| route := addr_A; last_seen := 5 |}
        (actual_routes (plexi_rpl_packet_received addr_A 5 two_free_slots)).
Proof.
  assert (H1 : clock_valid 5) by (unfold clock_valid, INT32_MAX; lia).
  assert (H2 : Exists (fun a => route a = addr_A \/ last_seen a = -1)
                      (actual_routes two_free_slots))
    by (apply Exists_cons_hd; right; reflexivity).
  repeat (split; [assumption|]).
  exact (packet_refreshes_or_claims addr_A 5 two_free_slots H1 H2).
Defined.

Lemma packet_keeps_other_entries_witness :
  nth_error (actual_routes (demo_state 0)) 0
  = Some {| route := addr_A; last_seen := 7 |}
  /\ 7 <> -1
  /\ addr_A <> addr_B
  /\ nth_error (actual_routes
                  (plexi_rpl_packet_received addr_B 9 (demo_state 0))) 0
     = Some {| route := addr_A; last_seen := 7 |}.
Proof.
  assert (H1 : nth_error (actual_routes (demo_state 0)) 0
               = Some {| route := addr_A; last_seen := 7 |}) by reflexivity.
  assert (H2 : 7 <> -1) by lia.
  assert (H3 : addr_A <> addr_B) by discriminate.
  repeat (split; [assumption|]).
  exact (packet_keeps_other_entries addr_B 9 (demo_state 0) 0
           {| route := addr_A; last_seen := 7 |} H1 H2 H3).
Defined.

Lemma full_table_drops_unknown_witness :
  let st := packets_received [(addr_A, 0); (addr_B, 5)] two_free_slots in
  all_live (actual_routes st)
  /\ Forall (fun a => route a <> addr_C) (actual_routes st)
  /\ plexi_rpl_packet_received addr_C 6 st = st.
Proof.
  cbv zeta.
  assert (H1 : all_live (actual_routes
                 (packets_received [(addr_A, 0); (addr_B, 5)]
                                   two_free_slots)))
    by (rewrite slots_after_A_and_B; unfold all_live;
        all_slots ltac:(simpl; lia)).
  assert (H2 : Forall (fun a => route a <> addr_C)
                 (actual_routes
                    (packets_received [(addr_A, 0); (addr_B, 5)]
                                      two_free_slots)))
    by (rewrite slots_after_A_and_B; all_slots ltac:(simpl; discriminate)).
  repeat (split; [assumption|]).
  exact (full_table_drops_unknown addr_C 6 _ H1 H2).
Defined.

Lemma sweep_before_interval_frees_first_entry_witness :
  let st := {| new_notification := 0;
               actual_routes := [ {| route := addr_C; last_seen := -1 |};
                                  {| route := addr_A; last_seen := 5 |} ];
               rpl_changed_timer := IDLE |} in
  0 <= 10 < PLEXI_RPL_UPDATE_INTERVAL
  /\ all_free [ {| route := addr_C; last_seen := -1 |} ]
  /\ 0 <= 5 <= INT32_MAX
  /\ actual_routes (blabla_tick 10 st)
     = [ {| route := addr_C; last_seen := -1 |};
         {| route := addr_A; last_seen := -1 |} ].
Proof.
  cbv zeta.
  assert (H1 : 0 <= 10 < PLEXI_RPL_UPDATE_INTERVAL)
    by (unfold PLEXI_RPL_UPDATE_INTERVAL; lia).
  assert (H2 : all_free [ {| route := addr_C; last_seen := -1 |} ])
    by (unfold all_free; all_slots ltac:(reflexivity)).
  assert (H3 : 0 <= 5 <= INT32_MAX) by (unfold INT32_MAX; lia).
  repeat (split; [assumption|]).
  exact (sweep_before_interval_frees_first_entry 10
           {| new_notification := 0;
              actual_routes := [ {| route := addr_C; last_seen := -1 |};
                                 {| route := addr_A; last_seen := 5 |} ];
              rpl_changed_timer := IDLE |}
           [ {| route := addr_C; last_seen := -1 |} ]
           {| route := addr_A; last_seen := 5 |} []
           H1 eq_refl H2 H3).
Defined.

Lemma heard_entry_survives_sweeps_witness :
  clock_valid 40
  /\ Exists (fun a => route a = addr_A \/ last_seen a = -1)
            (actual_routes two_free_slots)
  /\ Forall (fun c => sweep_clock c
                      /\ c - 40 <= PLEXI_RPL_UPDATE_INTERVAL) [41; 55; 70]
  /\ In {| route := addr_A; last_seen := 40 |}
        (actual_routes
           (blabla_run [41; 55; 70]
              (plexi_rpl_packet_received addr_A 40 two_free_slots))).
Proof.
  assert (H1 : clock_valid 40) by (unfold clock_valid, INT32_MAX; lia).
  assert (H2 : Exists (fun a => route a = addr_A \/ last_seen a = -1)
                      (actual_routes two_free_slots))
    by (apply Exists_cons_hd; right; reflexivity).
  assert (H3 : Forall (fun c => sweep_clock c
                                /\ c - 40 <= PLEXI_RPL_UPDATE_INTERVAL)
                      [41; 55; 70])
    by (all_slots ltac:(unfold sweep_clock, PLEXI_RPL_UPDATE_INTERVAL; lia)).
  repeat (split; [assumption|]).
  exact (heard_entry_survives_sweeps addr_A 40 [41; 55; 70] two_free_slots
           H1 H2 H3).
Defined.

Lemma stale_entries_gone_after_capacity_turns_witness :
  let st := packets_received [(addr_A, 0); (addr_B, 5)] two_free_slots in
  table_wf (actual_routes st)
  /\ Forall (fun c => sweep_clock c /\ 100 <= c) [100; 101]
  /\ Nat.le (List.length (actual_routes st)) (List.length [100; 101])
  /\ Forall (fun a => ~ stale 100 a) (actual_routes (blabla_run [100; 101] st)).
Proof.
  cbv zeta.
  assert (H1 : table_wf (actual_routes
                 (packets_received [(addr_A, 0); (addr_B, 5)]
                                   two_free_slots)))
    by (rewrite slots_after_A_and_B; unfold table_wf, INT32_MAX;
        all_slots ltac:(simpl; lia)).
  assert (H2 : Forall (fun c => sweep_clock c /\ 100 <= c) [100; 101])
    by (all_slots ltac:(unfold sweep_clock, PLEXI_RPL_UPDATE_INTERVAL; lia)).
  assert (H3 : Nat.le
                 (List.length
                    (actual_routes
                       (packets_received [(addr_A, 0); (addr_B, 5)]
                                         two_free_slots)))
                 (List.length [100; 101]))
    by (rewrite slots_after_A_and_B; simpl; unfold Nat.le; lia).
  repeat (split; [assumption|]).
  exact (stale_entries_gone_after_capacity_turns 100 [100; 101] _ H1 H2 H3).
Defined.

Lemma excluded_route_is_invisible_witness :
  routes demo_view
  = [ {| ipaddr := addr_A; nexthop := addr_A |};
      {| ipaddr := addr_B; nexthop := addr_A |} ]
    ++ {| ipaddr := addr_C; nexthop := addr_C |} :: []
  /\ nexthop_is_actual (actual_routes (demo_state 0))
       {| ipaddr := addr_C; nexthop := addr_C |} = false
  /\ 0 <= 16
  /\ plexi_get_dag_handler demo_view (demo_state 0) request_any
                           response_init 16 32
     = plexi_get_dag_handler
         (with_routes
            ([ {| ipaddr := addr_A; nexthop := addr_A |};
               {| ipaddr := addr_B; nexthop := addr_A |} ] ++ [])
            demo_view)
         (demo_state 0) request_any response_init 16 32.
Proof.
  assert (H1 : routes demo_view
               = [ {| ipaddr := addr_A; nexthop := addr_A |};
                   {| ipaddr := addr_B; nexthop := addr_A |} ]
                 ++ {| ipaddr := addr_C; nexthop := addr_C |} :: [])
    by reflexivity.
  assert (H2 : nexthop_is_actual (actual_routes (demo_state 0))
                 {| ipaddr := addr_C; nexthop := addr_C |} = false)
    by reflexivity.
  assert (H3 : 0 <= 16) by lia.
  repeat (split; [assumption|]).
  exact (excluded_route_is_invisible demo_view (demo_state 0) request_any
           response_init 16 32 _ _ _ H1 H2 H3).
Defined.

Lemma block_at_offset_witness :
  accepts_json request_any = true
  /\ 1 <= 16
  /\ new_notification (demo_state 0) = 0
  /\ 0 <= 16 < Z.of_nat (List.length
                           (dag_json demo_view (actual_routes (demo_state 0))))
  /\ 16 + 16 <= INT32_MAX
  /\ Z.of_nat (List.length
                 (payload (response_of
                    (plexi_get_dag_handler demo_view (demo_state 0)
                       request_any response_init 16 16)))) = 16.
Proof.
  assert (H1 : accepts_json request_any = true) by reflexivity.
  assert (H2 : 1 <= 16) by lia.
  assert (H3 : new_notification (demo_state 0) = 0) by reflexivity.
  assert (H4 : 0 <= 16 < Z.of_nat (List.length
                 (dag_json demo_view (actual_routes (demo_state 0)))))
    by (split; evaluated).
  assert (H5 : 16 + 16 <= INT32_MAX) by (unfold INT32_MAX; lia).
  repeat (split; [assumption|]).
  rewrite (proj2 (proj2 (block_at_offset demo_view (demo_state 0) request_any
                           16 16 H1 H2 H3 H4 H5))).
  vm_compute. reflexivity.
Defined.

Lemma offset_past_end_witness :
  accepts_json request_any = true
  /\ 0 <= 16
  /\ new_notification (demo_state 0) = 0
  /\ Z.of_nat (List.length
                 (dag_json demo_view (actual_routes (demo_state 0)))) <= 1000
  /\ 1000 + 16 <= INT32_MAX
  /\ plexi_get_dag_handler demo_view (demo_state 0) request_any
                           response_init 16 1000
     = (demo_state 0, block_out_of_scope, -1).
Proof.
  assert (H1 : accepts_json request_any = true) by reflexivity.
  assert (H2 : 0 <= 16) by lia.
  assert (H3 : new_notification (demo_state 0) = 0) by reflexivity.
  assert (H4 : Z.of_nat (List.length
                 (dag_json demo_view (actual_routes (demo_state 0))))
               <= 1000) by evaluated.
  assert (H5 : 1000 + 16 <= INT32_MAX) by (unfold INT32_MAX; lia).
  repeat (split; [assumption|]).
  exact (offset_past_end demo_view (demo_state 0) request_any 16 1000
           H1 H2 H3 H4 H5).
Defined.

Lemma zero_capacity_never_completes_witness :
  accepts_json request_any = true
  /\ get_exchanges 100 demo_view (demo_state 0) request_any 0 (-1) = None.
Proof.
  assert (H1 : accepts_json request_any = true) by reflexivity.
  split; [assumption|].
  exact (zero_capacity_never_completes demo_view (demo_state 0) request_any
           100 H1).
Defined.

Lemma exchange_count_witness :
  accepts_json request_json = true
  /\ 1 <= 16
  /\ Z.of_nat (List.length (dag_json demo_view (actual_routes (demo_state 1))))
     + 16 <= INT32_MAX
  /\ (List.length (dag_json demo_view (actual_routes (demo_state 1)))
      <= 55)%nat
  /\ exists responses,
       get_exchanges 55 demo_view (demo_state 1) request_json 16 (-1)
       = Some responses
       /\ Z.of_nat (List.length responses)
          = (Z.of_nat (List.length
                         (dag_json demo_view (actual_routes (demo_state 1))))
             + 16 - 1) / 16
       /\ Forall (fun r => 1 <= Z.of_nat (List.length (payload r)) <= 16)
                 responses.
Proof.
  assert (H1 : accepts_json request_json = true) by evaluated.
  assert (H2 : 1 <= 16) by evaluated.
  assert (H3 : Z.of_nat (List.length
                 (dag_json demo_view (actual_routes (demo_state 1))))
               + 16 <= INT32_MAX) by evaluated.
  assert (H4 : (List.length
                  (dag_json demo_view (actual_routes (demo_state 1)))
                <= 55)%nat) by evaluated.
  repeat (split; [assumption|]).
  exact (exchange_count demo_view (demo_state 1) request_json 16 55
           H1 H2 H3 H4).
Defined.

Lemma default_route_events_ignored_witness :
  rpl_changed_timer (plexi host_idle) = IDLE
  /\ Forall (fun ev => is_route_change (snd ev) = false)
            [(0, UIP_DS6_NOTIFICATION_DEFRT_ADD);
             (50, UIP_DS6_NOTIFICATION_DEFRT_RM)]
  /\ host_advance 100000
       (host_run [(0, UIP_DS6_NOTIFICATION_DEFRT_ADD);
                  (50, UIP_DS6_NOTIFICATION_DEFRT_RM)] host_idle)
     = host_idle.
Proof.
  assert (H1 : rpl_changed_timer (plexi host_idle) = IDLE) by reflexivity.
  assert (H2 : Forall (fun ev => is_route_change (snd ev) = false)
                 [(0, UIP_DS6_NOTIFICATION_DEFRT_ADD);
                  (50, UIP_DS6_NOTIFICATION_DEFRT_RM)])
    by (all_slots ltac:(reflexivity)).
  repeat (split; [assumption|]).
  exact (default_route_events_ignored _ host_idle 100000 H1 H2).
Defined.

(* ================================================================== *)
(** * The table as the handler sees it *)

Section TableAndHandler.
Context `{plexi_interface}.

(** The answer depends on the table only through which next hops have
    a live slot: two states that agree on that for every route of the
    view, and on the pending notification, get the same response and the
    same offset back, whatever their time stamps are and however many
    slots hold one address. *)
Theorem liveness_determines_answer
    view st1 st2 request response preferred_size offset :
  (forall r, In r (routes view) ->
             nexthop_is_actual (actual_routes st1) r
             = nexthop_is_actual (actual_routes st2) r) ->
  new_notification st1 = new_notification st2 ->
  0 <= preferred_size ->
  response_of (plexi_get_dag_handler view st1 request response
                                     preferred_size offset)
  = response_of (plexi_get_dag_handler view st2 request response
                                       preferred_size offset)
  /\ offset_after (plexi_get_dag_handler view st1 request response
                                         preferred_size offset)
     = offset_after (plexi_get_dag_handler view st2 request response
                                           preferred_size offset).
Proof.
  intros Hlive Hflag Hb.
  assert (Hbody : dag_json view (actual_routes st1)
                  = dag_json view (actual_routes st2)).
  { unfold dag_json. now rewrite (filter_ext_in _ _ _ Hlive). }
  assert (Hpass : forall o,
             dag_pass view (actual_routes st1) preferred_size o
             = dag_pass view (actual_routes st2) preferred_size o).
  { intros o. apply (walked_unique o preferred_size
                       (dag_json view (actual_routes st1))).
    - now apply dag_pass_walked.
    - rewrite Hbody. now apply dag_pass_walked. }
  assert (Hstart : start_offset st1 offset = start_offset st2 offset).
  { unfold start_offset. now rewrite Hflag. }
  unfold plexi_get_dag_handler, response_of, offset_after.
  destruct (accepts_json request); simpl; [|split; reflexivity].
  rewrite Hstart, Hpass. split; reflexivity.
Qed.

(** With no entry in the table, as right after [plexi_rpl_init], no
    child is listed: the handler answers as it does for an empty route
    table. *)
Theorem empty_table_lists_no_child
    view st request response preferred_size offset :
  all_free (actual_routes st) ->
  0 <= preferred_size ->
  plexi_get_dag_handler view st request response preferred_size offset
  = plexi_get_dag_handler (with_routes [] view) st request response
                          preferred_size offset.
Proof.
  intros Hfree Hb.
  assert (Hnone : forall r, nexthop_is_actual (actual_routes st) r = false).
  { intros r. unfold nexthop_is_actual, all_free in *.
    induction Hfree as [|a rest Ha _ IH]; simpl; [reflexivity|].
    rewrite Ha, IH. simpl. now rewrite andb_false_r. }
  assert (Hbody : dag_json view (actual_routes st)
                  = dag_json (with_routes [] view) (actual_routes st)).
  { unfold dag_json, with_routes. simpl.
    replace (filter (nexthop_is_actual (actual_routes st)) (routes view))
      with (@nil uip_ds6_route_t); [reflexivity|].
    induction (routes view) as [|r rs IH]; simpl; [reflexivity|].
    now rewrite Hnone. }
  assert (Hpass : forall o,
             dag_pass view (actual_routes st) preferred_size o
             = dag_pass (with_routes [] view) (actual_routes st)
                        preferred_size o).
  { intros o. apply (walked_unique o preferred_size
                       (dag_json view (actual_routes st))).
    - now apply dag_pass_walked.
    - rewrite Hbody. now apply dag_pass_walked. }
  unfold plexi_get_dag_handler. now rewrite Hpass.
Qed.

End TableAndHandler.

(** The table with A heard twice answers as the table with A heard
    once. *)
Lemma liveness_determines_answer_witness :
  let st1 := packets_received [(addr_A, 3); (addr_A, 4)] two_free_slots in
  let st2 := packets_received [(addr_A, 3)] two_free_slots in
  (forall r, In r (routes demo_view) ->
             nexthop_is_actual (actual_routes st1) r
             = nexthop_is_actual (actual_routes st2) r)
  /\ new_notification st1 = new_notification st2
  /\ 0 <= 16
  /\ response_of (plexi_get_dag_handler demo_view st1 request_any
                    response_init 16 32)
     = response_of (plexi_get_dag_handler demo_view st2 request_any
                      response_init 16 32).
Proof.
  cbv zeta.
  assert (H1 : forall r, In r (routes demo_view) ->
                 nexthop_is_actual
                   (actual_routes
                      (packets_received [(addr_A, 3); (addr_A, 4)]
                                        two_free_slots)) r
                 = nexthop_is_actual
                     (actual_routes
                        (packets_received [(addr_A, 3)] two_free_slots)) r).
  { intros r [E|[E|[E|[]]]]; subst r; reflexivity. }
  assert (H2 : new_notification
                 (packets_received [(addr_A, 3); (addr_A, 4)] two_free_slots)
               = new_notification
                   (packets_received [(addr_A, 3)] two_free_slots))
    by reflexivity.
  assert (H3 : 0 <= 16) by lia.
  repeat (split; [assumption|]).
  exact (proj1 (liveness_determines_answer demo_view _ _ request_any
                  response_init 16 32 H1 H2 H3)).
Defined.

Lemma empty_table_lists_no_child_witness :
  all_free (actual_routes two_free_slots)
  /\ 0 <= 16
  /\ plexi_get_dag_handler demo_view two_free_slots request_any
                           response_init 16 16
     = plexi_get_dag_handler (with_routes [] demo_view) two_free_slots
                             request_any response_init 16 16.
Proof.
  assert (H1 : all_free (actual_routes two_free_slots))
    by (unfold all_free; all_slots ltac:(reflexivity)).
  assert (H2 : 0 <= 16) by lia.
  repeat (split; [assumption|]).
  exact (empty_table_lists_no_child demo_view two_free_slots request_any
           response_init 16 16 H1 H2).
Defined.
